(** * CORS middleware (package cors): a shallow embedding and its properties

    The development follows [cors.go]: the [Options] container, the compiled
    [Cors] policy built by [New], the three admissibility predicates, the two
    negotiation paths ([handlePreflight], [handleActualRequest]) and the three
    handler adapters ([Handler], [HandlerFunc], [ServeHTTP]).

    Go strings are byte strings and are modelled by [string] (a list of
    8-bit characters).  An [http.Header] is a [map[string][]string] and is
    modelled by a [gmap string (list string)].  A [http.ResponseWriter] is
    mutated in place by the Go code; here every function that writes to it
    takes the writer and returns the updated one. *)

From Stdlib Require Import ZArith Ascii String DecimalString.
From stdpp Require Import gmap strings list fin_maps.

Local Open Scope Z_scope.

(** ** The parts of the Go standard library that the package calls *)

(** Package [strings], on byte strings.  [ToUpper] and [ToLower] map the ASCII
    letters, which is what Go does on every string made of ASCII bytes (HTTP
    methods, header names, origins); bytes above 127 are kept as they are. *)
Module Strings.

Definition isLower (c : ascii) : bool :=
  (("a" <=? c) && (c <=? "z"))%char.

Definition isUpper (c : ascii) : bool :=
  (("A" <=? c) && (c <=? "Z"))%char.

(** ['a' - 'A'] *)
Definition toLower : N := 32.

Definition upperByte (c : ascii) : ascii :=
  if isLower c then ascii_of_N (N_of_ascii c - toLower) else c.

Definition lowerByte (c : ascii) : ascii :=
  if isUpper c then ascii_of_N (N_of_ascii c + toLower) else c.

Fixpoint Map (f : ascii → ascii) (s : string) : string :=
  match s with
  | EmptyString => EmptyString
  | String c s' => String (f c) (Map f s')
  end.

Definition ToUpper : string → string := Map upperByte.
Definition ToLower : string → string := Map lowerByte.

(** [IndexByte s c] is the index of the first [c] in [s], or [-1]. *)
Fixpoint IndexByte (s : string) (c : ascii) : Z :=
  match s with
  | EmptyString => -1
  | String b s' =>
      if Ascii.eqb b c then 0
      else let i := IndexByte s' c in if i <? 0 then -1 else i + 1
  end.

(** The slice expressions [s[:i]] and [s[i:]]. *)
Definition slice_to (s : string) (i : Z) : string :=
  substring 0 (Z.to_nat i) s.

Definition slice_from (s : string) (i : Z) : string :=
  substring (Z.to_nat i) (String.length s - Z.to_nat i) s.

Definition HasPrefix (s prefix : string) : bool :=
  (String.length prefix <=? String.length s)%nat
  && bool_decide (substring 0 (String.length prefix) s = prefix).

Definition HasSuffix (s suffix : string) : bool :=
  (String.length suffix <=? String.length s)%nat
  && bool_decide (substring (String.length s - String.length suffix)
                            (String.length suffix) s = suffix).

Fixpoint Join (elems : list string) (sep : string) : string :=
  match elems with
  | [] => ""
  | [x] => x
  | x :: rest => x +:+ sep +:+ Join rest sep
  end.

(** [Split s sep] for a one-byte separator: the pieces of [s] between the
    occurrences of [sep]; never empty ([Split "" sep] is [[""]]). *)
Fixpoint Split (s : string) (sep : ascii) : list string :=
  match s with
  | EmptyString => [""]
  | String c s' =>
      if Ascii.eqb c sep then "" :: Split s' sep
      else match Split s' sep with
           | [] => [String c ""]
           | t :: ts => String c t :: ts
           end
  end.

(** ASCII white space: tab, line feed, vertical tab, form feed, carriage
    return and space. *)
Definition isSpace (c : ascii) : bool := Ascii.is_space c.

Fixpoint TrimLeft (s : string) : string :=
  match s with
  | EmptyString => EmptyString
  | String c s' => if isSpace c then TrimLeft s' else s
  end.

Fixpoint TrimRight (s : string) : string :=
  match s with
  | EmptyString => EmptyString
  | String c s' =>
      match TrimRight s' with
      | EmptyString => if isSpace c then EmptyString else String c EmptyString
      | t => String c t
      end
  end.

Definition TrimSpace (s : string) : string := TrimRight (TrimLeft s).

End Strings.

(** Package [strconv]. *)
Module Strconv.

(** [Itoa i] is the decimal representation of [i]. *)
Definition Itoa (i : Z) : string := NilZero.string_of_int (Z.to_int i).

End Strconv.

(** Package [net/http]: header maps, requests and response writers. *)
Module Http.

Definition MethodOptions : string := "OPTIONS".
Definition StatusOK : Z := 200.

(** The bytes allowed in a header field name (RFC 7230 [tchar]). *)
Definition validHeaderFieldByte (c : ascii) : bool :=
  Strings.isLower c || Strings.isUpper c || (("0" <=? c) && (c <=? "9"))%char
  || bool_decide (c ∈ ["!"; "#"; "$"; "%"; "&"; "'"; "*"; "+"; "-"; ".";
                       "^"; "_"; "`"; "|"; "~"]%char).

Fixpoint validHeaderField (s : string) : bool :=
  match s with
  | EmptyString => true
  | String c s' => validHeaderFieldByte c && validHeaderField s'
  end.

(** Header-name case: the first byte and every byte after a ['-'] is
    upper-cased, every other byte is lower-cased.  [upper] tells whether
    the byte starts a segment. *)
Definition headerCaseByte (upper : bool) (c : ascii) : ascii :=
  if upper && Strings.isLower c then Strings.upperByte c
  else if negb upper && Strings.isUpper c then Strings.lowerByte c
  else c.

Fixpoint headerCase (upper : bool) (s : string) : string :=
  match s with
  | EmptyString => EmptyString
  | String c s' =>
      let c' := headerCaseByte upper c in
      String c' (headerCase (Ascii.eqb c' "-") s')
  end.

(** [CanonicalHeaderKey s]: a name holding a byte that is not allowed in a
    header field name is returned unchanged, any other is put in header-name
    case. *)
Definition CanonicalHeaderKey (s : string) : string :=
  if validHeaderField s then headerCase true s else s.

(** [http.Header] is [map[string][]string]. *)
Abbreviation Header := (gmap string (list string)).

Definition Get (h : Header) (key : string) : string :=
  match h !! CanonicalHeaderKey key with
  | Some (v :: _) => v
  | _ => ""
  end.

Definition Add (h : Header) (key value : string) : Header :=
  let key := CanonicalHeaderKey key in
  <[key := default [] (h !! key) ++ [value]]> h.

(** [Header.Set] *)
Definition Put (h : Header) (key value : string) : Header :=
  <[CanonicalHeaderKey key := [value]]> h.

(** The request view: the engine reads the method and the headers only. *)
Record Request := mkRequest {
  Method : string;
  URL : string;
  ReqHeader : Header
}.

(** A response writer, as [httptest.ResponseRecorder] records it: the header
    map, the status code once it has been written, and the body. *)
Record ResponseWriter := mkResponseWriter {
  RespHeader : Header;
  Code : option Z;
  Body : string
}.

Definition withHeader (w : ResponseWriter) (h : Header) : ResponseWriter :=
  {| RespHeader := h; Code := Code w; Body := Body w |}.

(** [w.WriteHeader(code)]: the first status written stays. *)
Definition WriteHeader (w : ResponseWriter) (code : Z) : ResponseWriter :=
  match Code w with
  | Some _ => w
  | None => {| RespHeader := RespHeader w; Code := Some code; Body := Body w |}
  end.

(** [w.Write(b)]: writes the status 200 if none was written, then the body. *)
Definition Write (w : ResponseWriter) (b : string) : ResponseWriter :=
  let w := WriteHeader w StatusOK in
  {| RespHeader := RespHeader w; Code := Code w; Body := Body w +:+ b |}.

(** [http.Handler] / [http.HandlerFunc]: a handler acts on the writer. *)
Definition Handler : Type := ResponseWriter → Request → ResponseWriter.

End Http.

Import Strings Http.

(** ** Utilities: wildcard patterns, list conversion, header-list parsing *)

(** Modelled from the spec: the file holding [wildcard], [convert] and
    [parseHeaderList] is not among the sources; [cors.go] builds a wildcard
    from the two pieces [origin[:i]] and [origin[i+1:]] around the first ['*'],
    and the tests in [utils_test.go] call the three functions.  A pattern is a
    (prefix, suffix) pair. *)
Record wildcard := mkWildcard {
  w_prefix : string;
  w_suffix : string
}.

(** Modelled from the spec: [wildcard.match] is not among the sources.  A
    candidate matches when its length is at least [len(prefix)+len(suffix)],
    it starts with the prefix and it ends with the suffix. *)
Definition wildcard_match (w : wildcard) (s : string) : bool :=
  (String.length (w_prefix w) + String.length (w_suffix w) <=? String.length s)%nat
  && HasPrefix s (w_prefix w)
  && HasSuffix s (w_suffix w).

(** Modelled from the spec: [convert] is not among the sources.  It applies a
    string transform to every element, keeping order and length. *)
Definition convert (s : list string) (c : string → string) : list string :=
  c <$> s.

(** Modelled from the spec: [parseHeaderList] is not among the sources.  The
    input is split on commas; each token is trimmed of ASCII white space, an
    empty token is dropped, a surviving token is put in header-name case and
    is appended to the result unless the set of names seen so far holds it. *)
Fixpoint parseHeaderList_loop (tokens : list string) (seen : gset string)
    (headers : list string) : list string :=
  match tokens with
  | [] => headers
  | token :: rest =>
      let h := TrimSpace token in
      if decide (h = "") then parseHeaderList_loop rest seen headers
      else
        let h := headerCase true h in
        if decide (h ∈ seen) then parseHeaderList_loop rest seen headers
        else parseHeaderList_loop rest ({[h]} ∪ seen) (headers ++ [h])
  end.

Definition parseHeaderList (headerList : string) : list string :=
  parseHeaderList_loop (Split headerList ",") ∅ [].

(** ** Configuration and compiled policy *)

Record Options := mkOptions {
  AllowedOrigins : list string;
  AllowOriginFunc : option (string → bool);
  AllowedMethods : list string;
  AllowedHeaders : list string;
  ExposedHeaders : list string;
  MaxAge : Z;
  AllowCredentials : bool;
  OptionsPassthrough : bool;
  Debug : bool
}.

(** The zero value [Options{}]. *)
Definition Options_zero : Options :=
  {| AllowedOrigins := []; AllowOriginFunc := None; AllowedMethods := [];
     AllowedHeaders := []; ExposedHeaders := []; MaxAge := 0;
     AllowCredentials := false; OptionsPassthrough := false; Debug := false |}.

(** [Options{AllowedOrigins: origins}] *)
Definition Options_origins (origins : list string) : Options :=
  {| AllowedOrigins := origins; AllowOriginFunc := None; AllowedMethods := [];
     AllowedHeaders := []; ExposedHeaders := []; MaxAge := 0;
     AllowCredentials := false; OptionsPassthrough := false; Debug := false |}.

(** [Options{AllowedOrigins: origins, AllowOriginFunc: f}] *)
Definition Options_origins_func (origins : list string) (f : string → bool)
    : Options :=
  {| AllowedOrigins := origins; AllowOriginFunc := Some f; AllowedMethods := [];
     AllowedHeaders := []; ExposedHeaders := []; MaxAge := 0;
     AllowCredentials := false; OptionsPassthrough := false; Debug := false |}.

(** The compiled policy.  [log] tells whether a debug logger is installed; the
    logger prints to the standard output and touches neither the request nor
    the response, so [logf] calls leave no trace in the model. *)
Record Cors := mkCors {
  log : bool;
  allowedOrigins : list string;
  allowedWOrigins : list wildcard;
  allowOriginFunc : option (string → bool);
  allowedHeaders : list string;
  allowedMethods : list string;
  exposedHeaders : list string;
  maxAge : Z;
  allowedOriginsAll : bool;
  allowedHeadersAll : bool;
  allowCredentials : bool;
  optionPassthrough : bool
}.

(** The loop of [New] over a non-empty [AllowedOrigins]: the result is
    ([allowedOriginsAll], [allowedOrigins], [allowedWOrigins]); a ["*"] entry
    breaks out of the loop with both lists reset. *)
Fixpoint New_origins (origins : list string) (exact : list string)
    (wild : list wildcard) : bool * list string * list wildcard :=
  match origins with
  | [] => (false, exact, wild)
  | origin :: rest =>
      let origin := ToLower origin in
      if decide (origin = "*") then (true, [], [])
      else
        let i := IndexByte origin "*" in
        if 0 <=? i then
          let w := mkWildcard (slice_to origin i) (slice_from origin (i + 1)) in
          New_origins rest exact (wild ++ [w])
        else New_origins rest (exact ++ [origin]) wild
  end.

(** The loop of [New] over [AllowedHeaders]: is one entry ["*"]? *)
Definition New_headers_all (headers : list string) : bool :=
  existsb (λ h, bool_decide (h = "*")) headers.

Definition New (options : Options) : Cors :=
  let '(all, exact, wild) :=
    if (length (AllowedOrigins options) =? 0)%nat then
      (if AllowOriginFunc options is None then true else false, [], [])
    else New_origins (AllowedOrigins options) [] [] in
  let '(hall, hdrs) :=
    if (length (AllowedHeaders options) =? 0)%nat then
      (false, ["Origin"; "Accept"; "Content-Type"; "X-Requested-With"])
    else if New_headers_all (AllowedHeaders options) then (true, [])
    else (false, convert (AllowedHeaders options ++ ["Origin"]) CanonicalHeaderKey) in
  {| log := Debug options;
     allowedOrigins := exact;
     allowedWOrigins := wild;
     allowOriginFunc := AllowOriginFunc options;
     allowedHeaders := hdrs;
     allowedMethods :=
       if (length (AllowedMethods options) =? 0)%nat then ["GET"; "POST"; "HEAD"]
       else convert (AllowedMethods options) ToUpper;
     exposedHeaders := convert (ExposedHeaders options) CanonicalHeaderKey;
     maxAge := MaxAge options;
     allowedOriginsAll := all;
     allowedHeadersAll := hall;
     allowCredentials := AllowCredentials options;
     optionPassthrough := OptionsPassthrough options |}.

Definition Default : Cors := New Options_zero.

Definition AllowAll : Cors :=
  New {| AllowedOrigins := ["*"]; AllowOriginFunc := None;
         AllowedMethods := ["HEAD"; "GET"; "POST"; "PUT"; "PATCH"; "DELETE"];
         AllowedHeaders := ["*"]; ExposedHeaders := []; MaxAge := 0;
         AllowCredentials := true; OptionsPassthrough := false;
         Debug := false |}.

(** ** Admissibility predicates *)

Definition isOriginAllowed (c : Cors) (origin : string) : bool :=
  match allowOriginFunc c with
  | Some f => f origin
  | None =>
      if allowedOriginsAll c then true
      else
        let origin := ToLower origin in
        if existsb (λ o, bool_decide (o = origin)) (allowedOrigins c) then true
        else if existsb (λ w, wildcard_match w origin) (allowedWOrigins c) then true
        else false
  end.

Definition isMethodAllowed (c : Cors) (method : string) : bool :=
  if (length (allowedMethods c) =? 0)%nat then false
  else
    let method := ToUpper method in
    if decide (method = MethodOptions) then true
    else existsb (λ m, bool_decide (m = method)) (allowedMethods c).

Definition areHeadersAllowed (c : Cors) (reqHeaders : list string) : bool :=
  if allowedHeadersAll c || (length reqHeaders =? 0)%nat then true
  else
    forallb
      (λ header,
         let header := CanonicalHeaderKey header in
         existsb (λ h, bool_decide (h = header)) (allowedHeaders c))
      reqHeaders.

(** ** Negotiation engine *)

Definition handlePreflight (c : Cors) (w : ResponseWriter) (r : Request)
    : ResponseWriter :=
  let headers := RespHeader w in
  let origin := Get (ReqHeader r) "Origin" in
  if decide (Method r ≠ MethodOptions) then w
  else
    let headers := Add headers "Vary" "Origin" in
    let headers := Add headers "Vary" "Access-Control-Request-Method" in
    let headers := Add headers "Vary" "Access-Control-Request-Headers" in
    if decide (origin = "") then withHeader w headers
    else if negb (isOriginAllowed c origin) then withHeader w headers
    else
      let reqMethod := Get (ReqHeader r) "Access-Control-Request-Method" in
      if negb (isMethodAllowed c reqMethod) then withHeader w headers
      else
        let reqHeaders :=
          parseHeaderList (Get (ReqHeader r) "Access-Control-Request-Headers") in
        if negb (areHeadersAllowed c reqHeaders) then withHeader w headers
        else
          let headers :=
            if allowedOriginsAll c && negb (allowCredentials c)
            then Put headers "Access-Control-Allow-Origin" "*"
            else Put headers "Access-Control-Allow-Origin" origin in
          let headers :=
            Put headers "Access-Control-Allow-Methods" (ToUpper reqMethod) in
          let headers :=
            if (0 <? length reqHeaders)%nat
            then Put headers "Access-Control-Allow-Headers" (Join reqHeaders ", ")
            else headers in
          let headers :=
            if allowCredentials c
            then Put headers "Access-Control-Allow-Credentials" "true"
            else headers in
          let headers :=
            if 0 <? maxAge c
            then Put headers "Access-Control-Max-Age" (Strconv.Itoa (maxAge c))
            else headers in
          withHeader w headers.

Definition handleActualRequest (c : Cors) (w : ResponseWriter) (r : Request)
    : ResponseWriter :=
  let headers := RespHeader w in
  let origin := Get (ReqHeader r) "Origin" in
  if decide (Method r = MethodOptions) then w
  else
    let headers := Add headers "Vary" "Origin" in
    if decide (origin = "") then withHeader w headers
    else if negb (isOriginAllowed c origin) then withHeader w headers
    else if negb (isMethodAllowed c (Method r)) then withHeader w headers
    else
      let headers :=
        if allowedOriginsAll c && negb (allowCredentials c)
        then Put headers "Access-Control-Allow-Origin" "*"
        else Put headers "Access-Control-Allow-Origin" origin in
      let headers :=
        if (0 <? length (exposedHeaders c))%nat
        then Put headers "Access-Control-Expose-Headers"
                 (Join (exposedHeaders c) ", ")
        else headers in
      let headers :=
        if allowCredentials c
        then Put headers "Access-Control-Allow-Credentials" "true"
        else headers in
      withHeader w headers.

(** ** Handler adapters *)

(** The routing test shared by the three adapters:
    [r.Method == http.MethodOptions &&
     r.Header.Get("Access-Control-Request-Method") != ""]. *)
Definition isPreflight (r : Request) : bool :=
  bool_decide (Method r = MethodOptions)
  && negb (bool_decide (Get (ReqHeader r) "Access-Control-Request-Method" = "")).

Definition Handler (c : Cors) (h : Http.Handler) : Http.Handler :=
  λ w r,
    if isPreflight r then
      let w := handlePreflight c w r in
      if optionPassthrough c then h w r
      else WriteHeader w StatusOK
    else
      let w := handleActualRequest c w r in
      h w r.

Definition HandlerFunc (c : Cors) (w : ResponseWriter) (r : Request)
    : ResponseWriter :=
  if isPreflight r then handlePreflight c w r
  else handleActualRequest c w r.

Definition ServeHTTP (c : Cors) (w : ResponseWriter) (r : Request)
    (next : Http.Handler) : ResponseWriter :=
  if isPreflight r then
    let w := handlePreflight c w r in
    if optionPassthrough c then next w r
    else WriteHeader w StatusOK
  else
    let w := handleActualRequest c w r in
    next w r.

(** ** The fixtures of [cors_test.go] *)

(** [testHandler] writes the body ["hello"]. *)
Definition testHandler : Http.Handler := λ w _, Write w "hello".

(** [httptest.NewRecorder()] *)
Definition NewRecorder : ResponseWriter :=
  {| RespHeader := ∅; Code := None; Body := "" |}.

(** [http.NewRequest(method, "http://example.com/foo", nil)] followed by
    [req.Header.Add] of every pair of [reqHeaders]. *)
Definition NewRequest (method : string) (reqHeaders : list (string * string))
    : Request :=
  {| Method := method;
     URL := "http://example.com/foo";
     ReqHeader := foldl (λ h kv, Add h kv.1 kv.2) ∅ reqHeaders |}.

(** ** Vocabulary of the statements *)

(** The header map once the preflight path has appended its three [Vary]
    entries. *)
Definition addPreflightVary (h : Header) : Header :=
  Add (Add (Add h "Vary" "Origin") "Vary" "Access-Control-Request-Method")
      "Vary" "Access-Control-Request-Headers".

(** The three request values read by the preflight path. *)
Definition requestOrigin (r : Request) : string :=
  Get (ReqHeader r) "Origin".

Definition requestedMethod (r : Request) : string :=
  Get (ReqHeader r) "Access-Control-Request-Method".

Definition requestedHeaders (r : Request) : list string :=
  parseHeaderList (Get (ReqHeader r) "Access-Control-Request-Headers").

(** One of the four checks after the [Vary] entries fails. *)
Definition preflightRejected (c : Cors) (r : Request) : Prop :=
  requestOrigin r = ""
  ∨ isOriginAllowed c (requestOrigin r) = false
  ∨ isMethodAllowed c (requestedMethod r) = false
  ∨ areHeadersAllowed c (requestedHeaders r) = false.


(** A string made of white space only. *)
Fixpoint allSpaces (s : string) : bool :=
  match s with
  | EmptyString => true
  | String c s' => isSpace c && allSpaces s'
  end.

(** First-seen deduplication: an element is kept at its first occurrence and
    dropped at every later one. *)
Fixpoint dedupFirst (l : list string) : list string :=
  match l with
  | [] => []
  | x :: l' => x :: filter (λ y, y ≠ x) (dedupFirst l')
  end.

(** The canonical names of a list of raw tokens, in order, duplicates kept. *)
Definition canonicalTokens (tokens : list string) : list string :=
  headerCase true <$> filter (λ t, t ≠ "") (TrimSpace <$> tokens).

(** One of the three checks of the actual-request path fails. *)
Definition actualRejected (c : Cors) (r : Request) : Prop :=
  requestOrigin r = ""
  ∨ isOriginAllowed c (requestOrigin r) = false
  ∨ isMethodAllowed c (Method r) = false.

(** The response header names that the engine writes. *)
Definition corsHeaderNames : list string :=
  ["Vary"; "Access-Control-Allow-Origin"; "Access-Control-Allow-Methods";
   "Access-Control-Allow-Headers"; "Access-Control-Allow-Credentials";
   "Access-Control-Max-Age"; "Access-Control-Expose-Headers"].

(** The wildcard pattern that [New] builds from a lower-cased origin holding
    a ['*']: the slices around the first one. *)
Definition wildcardOf (origin : string) : wildcard :=
  mkWildcard (slice_to origin (IndexByte origin "*"))
             (slice_from origin (IndexByte origin "*" + 1)).

(** Does the string hold a ['*']? *)
Definition hasStar (origin : string) : Prop := 0 ≤ IndexByte origin "*".

Global Instance hasStar_dec origin : Decision (hasStar origin).
Proof. unfold hasStar. apply _. Defined.

(** * Properties *)

(** ** Byte strings *)

Section string_facts.
Implicit Types s t p q : string.

Lemma string_app_cons c s t : String c s +:+ t = String c (s +:+ t).
Proof. reflexivity. Qed.

Lemma string_app_nil_l t : "" +:+ t = t.
Proof. reflexivity. Qed.

Lemma string_length_app s t :
  String.length (s +:+ t) = (String.length s + String.length t)%nat.
Proof.
  induction s as [|c s IH]; [done |]. rewrite string_app_cons. simpl. by rewrite IH.
Qed.

Lemma string_app_nil_r s : s +:+ "" = s.
Proof. induction s as [|c s IH]; [done |]. by rewrite string_app_cons, IH. Qed.

Lemma string_app_assoc s t q : (s +:+ t) +:+ q = s +:+ t +:+ q.
Proof. induction s as [|c s IH]; [done |]. by rewrite !string_app_cons, IH. Qed.

Lemma substring_all s : substring 0 (String.length s) s = s.
Proof. induction s as [|c s IH]; simpl; [done | by rewrite IH]. Qed.

Lemma substring_0_app p t : substring 0 (String.length p) (p +:+ t) = p.
Proof.
  induction p as [|c p IH]; [by destruct t |].
  rewrite string_app_cons. simpl. by rewrite IH.
Qed.

Lemma substring_skip_app t q n :
  substring (String.length t) n (t +:+ q) = substring 0 n q.
Proof.
  induction t as [|c t IH]; [done |]. rewrite string_app_cons. simpl.
  rewrite IH. by destruct n.
Qed.

(** A string is the piece before position [n] followed by the rest. *)
Lemma substring_split s n :
  (n ≤ String.length s)%nat →
  s = substring 0 n s +:+ substring n (String.length s - n) s.
Proof.
  revert n. induction s as [|c s IH]; intros [|n] Hn; simpl in *; try lia.
  - done.
  - by rewrite string_app_nil_l, substring_all.
  - rewrite string_app_cons. f_equal. apply IH. lia.
Qed.

Lemma HasPrefix_spec s p : HasPrefix s p = true ↔ ∃ t, s = p +:+ t.
Proof.
  unfold HasPrefix. rewrite andb_true_iff, Nat.leb_le, bool_decide_eq_true.
  split.
  - intros [Hlen Hsub]. eexists.
    rewrite (substring_split s (String.length p)) at 1 by done.
    by rewrite Hsub.
  - intros [t ->]. rewrite string_length_app, substring_0_app. split; [lia | done].
Qed.

Lemma HasSuffix_spec s q : HasSuffix s q = true ↔ ∃ t, s = t +:+ q.
Proof.
  unfold HasSuffix. rewrite andb_true_iff, Nat.leb_le, bool_decide_eq_true.
  split.
  - intros [Hlen Hsub].
    exists (substring 0 (String.length s - String.length q) s).
    rewrite (substring_split s (String.length s - String.length q)) at 1 by lia.
    f_equal. rewrite <- Hsub at 3. f_equal. lia.
  - intros [t ->]. rewrite string_length_app. split; [lia |].
    replace (String.length t + String.length q - String.length q)%nat
      with (String.length t) by lia.
    by rewrite substring_skip_app, substring_all.
Qed.

(** Two ways of cutting one string: the shorter head is a head of the
    longer one. *)
Lemma string_app_eq_app_le p t u q :
  p +:+ t = u +:+ q → (String.length p ≤ String.length u)%nat →
  ∃ m, u = p +:+ m ∧ t = m +:+ q.
Proof.
  revert u. induction p as [|c p IH]; intros u Heq Hlen.
  - exists u. by rewrite !string_app_nil_l in *.
  - destruct u as [|d u]; simpl in Hlen; [lia |].
    rewrite !string_app_cons in Heq. injection Heq as -> Heq.
    destruct (IH u Heq ltac:(lia)) as (m & -> & ->).
    by exists m.
Qed.

End string_facts.

(** ** Wildcard patterns *)

Section wildcard_facts.

(** The three conditions of the matcher, as propositions. *)
Lemma wildcard_match_iff (w : wildcard) (s : string) :
  wildcard_match w s = true ↔
    (String.length (w_prefix w) + String.length (w_suffix w)
       ≤ String.length s)%nat
    ∧ (∃ t, s = w_prefix w +:+ t)
    ∧ (∃ t, s = t +:+ w_suffix w).
Proof.
  unfold wildcard_match.
  rewrite !andb_true_iff, Nat.leb_le, HasPrefix_spec, HasSuffix_spec.
  tauto.
Qed.

(** With the length condition the two anchors do not overlap: a match is a
    string of the shape prefix, anything, suffix. *)
Lemma wildcard_match_middle (w : wildcard) (s : string) :
  wildcard_match w s = true ↔ ∃ mid, s = w_prefix w +:+ mid +:+ w_suffix w.
Proof.
  rewrite wildcard_match_iff. split.
  - intros (Hlen & [t Ht] & [u Hu]).
    destruct (string_app_eq_app_le (w_prefix w) t u (w_suffix w)) as (mid & _ & ->).
    + congruence.
    + apply (f_equal String.length) in Hu. rewrite string_length_app in Hu. lia.
    + by exists mid.
  - intros [mid ->]. rewrite !string_length_app. split; [lia |]. split.
    + by eexists.
    + exists (w_prefix w +:+ mid). by rewrite string_app_assoc.
Qed.

(** [IndexByte] finds the first occurrence: the string is the slice before
    it, the byte, and the slice after it, and the byte is not in the slice
    before it. *)
Lemma IndexByte_split (s : string) (c : ascii) :
  0 ≤ IndexByte s c →
  s = slice_to s (IndexByte s c)
        +:+ String c (slice_from s (IndexByte s c + 1))
  ∧ IndexByte (slice_to s (IndexByte s c)) c = -1.
Proof.
  unfold slice_to, slice_from.
  induction s as [|b s IH]; simpl; [lia |].
  destruct (Ascii.eqb_spec b c) as [-> | Hbc].
  - intros _. simpl. rewrite string_app_nil_l, Nat.sub_0_r.
    by rewrite substring_all.
  - destruct (Z.ltb_spec (IndexByte s c) 0) as [Hneg | Hpos]; [lia |].
    intros _. destruct (IH Hpos) as [Hs Hnot].
    replace (Z.to_nat (IndexByte s c + 1)) with (S (Z.to_nat (IndexByte s c)))
      by lia.
    replace (Z.to_nat (IndexByte s c + 1 + 1))
      with (S (Z.to_nat (IndexByte s c + 1))) by lia.
    simpl. rewrite string_app_cons. split.
    + f_equal. exact Hs.
    + destruct (Ascii.eqb_spec b c); [done |]. by rewrite Hnot.
Qed.

(** A one-entry origins list whose entry holds a ['*'] and is not ["*"]
    compiles to the single pattern cut at the first ['*']. *)
Lemma New_wildcard_origin (origin : string) :
  ToLower origin ≠ "*" → 0 ≤ IndexByte (ToLower origin) "*" →
  ∃ w, allowedWOrigins (New (Options_origins [origin])) = [w]
       ∧ allowedOrigins (New (Options_origins [origin])) = []
       ∧ ToLower origin = w_prefix w +:+ String "*" (w_suffix w)
       ∧ IndexByte (w_prefix w) "*" = -1.
Proof.
  intros Hstar Hidx. unfold New, Options_origins. simpl.
  destruct (decide (ToLower origin = "*")) as [|_]; [done |].
  destruct (Z.leb_spec 0 (IndexByte (ToLower origin) "*")) as [_ | ?]; [| lia].
  simpl. eexists. split; [done |]. split; [done |]. simpl.
  by apply IndexByte_split.
Qed.

End wildcard_facts.

(** C9: a wildcard pattern (prefix, suffix) matches a candidate exactly when
    the candidate is at least as long as prefix and suffix together, starts
    with the prefix and ends with the suffix; the pattern compiled from
    ["http://*.bar.com"] is ("http://", ".bar.com"), it matches
    ["http://foo.bar.com"] and does not match ["http://foo.baz.com"]. *)
Theorem wildcard_match_spec :
  (∀ (prefix suffix s : string),
      wildcard_match (mkWildcard prefix suffix) s = true ↔
        (String.length prefix + String.length suffix ≤ String.length s)%nat
        ∧ (∃ t, s = prefix +:+ t)
        ∧ (∃ t, s = t +:+ suffix))
  ∧ allowedWOrigins (New (Options_origins ["http://*.bar.com"]))
      = [mkWildcard "http://" ".bar.com"]
  ∧ wildcard_match (mkWildcard "http://" ".bar.com") "http://foo.bar.com" = true
  ∧ wildcard_match (mkWildcard "http://" ".bar.com") "http://foo.baz.com" = false.
Proof.
  split; [| by vm_compute].
  intros prefix suffix s. apply (wildcard_match_iff (mkWildcard prefix suffix) s).
Qed.

Lemma wildcard_match_spec_witness :
  (String.length "foo" + String.length "bar" ≤ String.length "foobazbar")%nat
  ∧ (∃ t, "foobazbar" = "foo" +:+ t)
  ∧ (∃ t, "foobazbar" = t +:+ "bar").
Proof.
  apply (proj1 (proj1 wildcard_match_spec "foo" "bar" "foobazbar")).
  vm_compute. reflexivity.
Defined.

(** ** Header maps *)

Section header_facts.
Implicit Types h : gmap string (list string).

Lemma lookup_Add h key value k :
  Add h key value !! k =
    if decide (CanonicalHeaderKey key = k)
    then Some (default [] (h !! k) ++ [value])
    else h !! k.
Proof.
  unfold Add. case_decide as Hk.
  - subst k. by rewrite lookup_insert_eq.
  - by rewrite lookup_insert_ne.
Qed.

Lemma lookup_Put h key value k :
  Put h key value !! k =
    if decide (CanonicalHeaderKey key = k) then Some [value] else h !! k.
Proof.
  unfold Put. case_decide as Hk.
  - subst k. by rewrite lookup_insert_eq.
  - by rewrite lookup_insert_ne.
Qed.

Lemma Get_lookup h key :
  Get h key = match h !! CanonicalHeaderKey key with
              | Some (v :: _) => v
              | _ => ""
              end.
Proof. reflexivity. Qed.

Lemma withHeader_id (w : ResponseWriter) : withHeader w (RespHeader w) = w.
Proof. by destruct w. Qed.

Lemma RespHeader_withHeader (w : ResponseWriter) h :
  RespHeader (withHeader w h) = h.
Proof. reflexivity. Qed.


End header_facts.

(** Decides the comparisons of header names left by [lookup_Add] and
    [lookup_Put]: two literal names are compared by evaluation, a name bound
    by a hypothesis by that hypothesis. *)
Ltac header_keys :=
  repeat first [rewrite lookup_Put | rewrite lookup_Add];
  repeat match goal with
    | |- context [decide (CanonicalHeaderKey ?k = ?k')] =>
        destruct (decide (CanonicalHeaderKey k = k')) as [Hk | Hk];
        [ try (vm_compute in Hk; first [discriminate Hk | congruence])
        | try (exfalso; apply Hk; vm_compute; reflexivity) ]
    end.

(** The names the engine writes are canonical already. *)
Lemma canonical_Vary : CanonicalHeaderKey "Vary" = "Vary".
Proof. vm_compute. reflexivity. Qed.

Lemma canonical_Allow_Origin :
  CanonicalHeaderKey "Access-Control-Allow-Origin"
  = "Access-Control-Allow-Origin".
Proof. vm_compute. reflexivity. Qed.

Lemma canonical_Allow_Methods :
  CanonicalHeaderKey "Access-Control-Allow-Methods"
  = "Access-Control-Allow-Methods".
Proof. vm_compute. reflexivity. Qed.

Lemma canonical_Allow_Headers :
  CanonicalHeaderKey "Access-Control-Allow-Headers"
  = "Access-Control-Allow-Headers".
Proof. vm_compute. reflexivity. Qed.

Lemma canonical_Allow_Credentials :
  CanonicalHeaderKey "Access-Control-Allow-Credentials"
  = "Access-Control-Allow-Credentials".
Proof. vm_compute. reflexivity. Qed.

Lemma canonical_Max_Age :
  CanonicalHeaderKey "Access-Control-Max-Age" = "Access-Control-Max-Age".
Proof. vm_compute. reflexivity. Qed.

Lemma canonical_Expose_Headers :
  CanonicalHeaderKey "Access-Control-Expose-Headers"
  = "Access-Control-Expose-Headers".
Proof. vm_compute. reflexivity. Qed.

(** Lookups through a chain of [Put] and [Add]: the names are replaced by
    their canonical forms, then each comparison is settled, between two
    literal names by their constructors, between a literal name and a
    variable by the hypotheses. *)
Ltac header_lookup :=
  repeat first [rewrite lookup_Put | rewrite lookup_Add];
  rewrite ?canonical_Vary, ?canonical_Allow_Origin, ?canonical_Allow_Methods,
    ?canonical_Allow_Headers, ?canonical_Allow_Credentials,
    ?canonical_Max_Age, ?canonical_Expose_Headers;
  repeat first
    [ rewrite decide_True by reflexivity
    | rewrite decide_False by discriminate
    | rewrite decide_False by congruence ].

(** The same for the lookup of a name that hypotheses tell apart from the
    literal names written: every comparison fails. *)
Ltac header_other :=
  repeat first [rewrite lookup_Put | rewrite lookup_Add];
  repeat (rewrite decide_False by (vm_compute; congruence)).

(** Settles a closed decidable proposition by evaluation. *)
Ltac by_decide :=
  lazymatch goal with
  | |- ?P => refine (@bool_decide_unpack P _ _); vm_compute; exact I
  end.

Section preflight_facts.
Context (c : Cors) (w : ResponseWriter) (r : Request).

Let origin := Get (ReqHeader r) "Origin".
Let reqMethod := Get (ReqHeader r) "Access-Control-Request-Method".
Let reqHeaders :=
  parseHeaderList (Get (ReqHeader r) "Access-Control-Request-Headers").

Lemma lookup_addPreflightVary_Vary (h : gmap string (list string)) :
  addPreflightVary h !! "Vary" =
    Some (default [] (h !! "Vary")
            ++ ["Origin"; "Access-Control-Request-Method";
                "Access-Control-Request-Headers"]).
Proof.
  unfold addPreflightVary. header_keys. simpl.
  by rewrite <- !(assoc_L (++)).
Qed.

Lemma lookup_addPreflightVary_ne (h : gmap string (list string)) k :
  k ≠ "Vary" → addPreflightVary h !! k = h !! k.
Proof. intros Hne. unfold addPreflightVary. by header_keys. Qed.

(** The defensive method check comes first and leaves the writer as is. *)
Lemma handlePreflight_not_options :
  Method r ≠ MethodOptions → handlePreflight c w r = w.
Proof. intros Hm. unfold handlePreflight. by rewrite decide_True. Qed.

(** Every later abort leaves exactly the three [Vary] entries. *)
Lemma handlePreflight_abort :
  Method r = MethodOptions →
  origin = "" ∨ isOriginAllowed c origin = false
    ∨ isMethodAllowed c reqMethod = false
    ∨ areHeadersAllowed c reqHeaders = false →
  handlePreflight c w r = withHeader w (addPreflightVary (RespHeader w)).
Proof.
  intros Hm Habort. unfold handlePreflight.
  rewrite decide_False by (by intros []).
  fold origin reqMethod reqHeaders. fold (addPreflightVary (RespHeader w)).
  destruct (decide (origin = "")) as [|Ho]; [done |].
  destruct (isOriginAllowed c origin); [simpl | done].
  destruct (isMethodAllowed c reqMethod); [simpl | done].
  destruct (areHeadersAllowed c reqHeaders); [simpl | done].
  by destruct Habort as [? | [? | [? | ?]]].
Qed.

(** Past the method check the three [Vary] entries are always appended. *)
Lemma handlePreflight_Vary :
  Method r = MethodOptions →
  RespHeader (handlePreflight c w r) !! "Vary" =
    Some (default [] (RespHeader w !! "Vary")
            ++ ["Origin"; "Access-Control-Request-Method";
                "Access-Control-Request-Headers"]).
Proof.
  intros Hm. rewrite <- lookup_addPreflightVary_Vary.
  unfold handlePreflight. rewrite decide_False by (by intros []).
  fold origin reqMethod reqHeaders. fold (addPreflightVary (RespHeader w)).
  repeat (match goal with
          | |- context [if ?b then _ else _] => destruct b
          end; simpl; try done);
    by header_keys.
Qed.

End preflight_facts.

(** ** The preflight path *)

(** The preflight path writes headers only: status and body stay. *)
Lemma handlePreflight_withHeader c w r :
  handlePreflight c w r = withHeader w (RespHeader (handlePreflight c w r)).
Proof.
  unfold handlePreflight.
  repeat (match goal with
          | |- context [if ?b then _ else _] => destruct b
          end; simpl; try done);
    by rewrite withHeader_id.
Qed.

Lemma handleActualRequest_withHeader c w r :
  handleActualRequest c w r
  = withHeader w (RespHeader (handleActualRequest c w r)).
Proof.
  unfold handleActualRequest.
  repeat (match goal with
          | |- context [if ?b then _ else _] => destruct b
          end; simpl; try done);
    by rewrite withHeader_id.
Qed.




Lemma isPreflight_true r :
  isPreflight r = true ↔ Method r = MethodOptions ∧ requestedMethod r ≠ "".
Proof.
  unfold isPreflight, requestedMethod.
  by rewrite andb_true_iff, negb_true_iff, bool_decide_eq_true,
    bool_decide_eq_false.
Qed.

(** C3 (as the code has it): the defensive method check runs before the
    [Vary] entries are written, so a request whose method is not OPTIONS
    leaves the response untouched; past that check the three [Vary] entries
    (Origin, Access-Control-Request-Method, Access-Control-Request-Headers)
    are appended in this order before every other abort point, and when one
    of those aborts fires the response holds nothing beyond them.  The
    function returns a response in every case: no error is raised. *)
Theorem handlePreflight_vary_before_later_aborts (c : Cors)
    (w : ResponseWriter) (r : Request) :
  (Method r ≠ MethodOptions → handlePreflight c w r = w)
  ∧ (Method r = MethodOptions →
     RespHeader (handlePreflight c w r) !! "Vary" =
       Some (default [] (RespHeader w !! "Vary")
               ++ ["Origin"; "Access-Control-Request-Method";
                   "Access-Control-Request-Headers"]))
  ∧ (Method r = MethodOptions → preflightRejected c r →
     handlePreflight c w r = withHeader w (addPreflightVary (RespHeader w))
     ∧ ∀ k, k ≠ "Vary" →
         RespHeader (handlePreflight c w r) !! k = RespHeader w !! k).
Proof.
  split; [apply handlePreflight_not_options |].
  split; [apply handlePreflight_Vary |].
  intros Hm Hrej. rewrite (handlePreflight_abort c w r Hm Hrej).
  split; [done |]. intros k Hk. simpl. by apply lookup_addPreflightVary_ne.
Qed.

(** The claim as the spec words it fails on a request whose method is not
    OPTIONS: the method check returns before any [Vary] entry is written. *)
Lemma handlePreflight_method_abort_without_vary :
  RespHeader
    (handlePreflight Default NewRecorder
       (NewRequest "GET" [("Origin", "http://foobar.com");
                          ("Access-Control-Request-Method", "GET")]))
    !! "Vary" = None.
Proof. vm_compute. reflexivity. Qed.

Lemma handlePreflight_vary_before_later_aborts_witness :
  handlePreflight Default NewRecorder (NewRequest "GET" []) = NewRecorder
  ∧ RespHeader
      (handlePreflight (New (Options_origins ["http://foobar.com"])) NewRecorder
         (NewRequest "OPTIONS" [("Origin", "http://barbaz.com");
                                ("Access-Control-Request-Method", "GET")]))
    = {["Vary" := ["Origin"; "Access-Control-Request-Method";
                    "Access-Control-Request-Headers"]]}.
Proof.
  split.
  - apply (proj1 (handlePreflight_vary_before_later_aborts
                    Default NewRecorder (NewRequest "GET" []))).
    vm_compute. discriminate.
  - destruct (proj2 (proj2 (handlePreflight_vary_before_later_aborts
             (New (Options_origins ["http://foobar.com"])) NewRecorder
             (NewRequest "OPTIONS" [("Origin", "http://barbaz.com");
                                    ("Access-Control-Request-Method", "GET")]))))
      as [-> _].
    + vm_compute. reflexivity.
    + right. left. vm_compute. reflexivity.
    + vm_compute. reflexivity.
Defined.

(** [areHeadersAllowed] rejects the whole list as soon as one requested
    header is missing from [allowedHeaders]. *)
Lemma areHeadersAllowed_false c (reqHeaders : list string) h :
  allowedHeadersAll c = false →
  h ∈ reqHeaders → CanonicalHeaderKey h ∉ allowedHeaders c →
  areHeadersAllowed c reqHeaders = false.
Proof.
  intros Hall Hin Hnot. unfold areHeadersAllowed. rewrite Hall. simpl.
  destruct reqHeaders as [|x l]; [by apply elem_of_nil in Hin |]. simpl length.
  change (S (length l) =? 0)%nat with false. cbv iota.
  apply not_true_is_false. intros Hforall.
  rewrite forallb_forall in Hforall.
  specialize (Hforall h (proj1 (list_elem_of_In _ _) Hin)). simpl in Hforall.
  apply existsb_exists in Hforall as (a & Ha & Heq).
  apply bool_decide_eq_true in Heq. subst a.
  by apply Hnot, list_elem_of_In.
Qed.

(** Conversely, a list is accepted exactly when the policy allows every
    header or each requested header is, once canonical, in [allowedHeaders]. *)
Lemma areHeadersAllowed_true c (reqHeaders : list string) :
  areHeadersAllowed c reqHeaders = true ↔
    allowedHeadersAll c = true
    ∨ ∀ h, h ∈ reqHeaders → CanonicalHeaderKey h ∈ allowedHeaders c.
Proof.
  unfold areHeadersAllowed. destruct (allowedHeadersAll c); simpl.
  { split; [by left | done]. }
  destruct reqHeaders as [|x l].
  { simpl. split; [| done]. intros _. right. intros h Hh.
    by apply elem_of_nil in Hh. }
  simpl length. change (S (length l) =? 0)%nat with false. cbv iota.
  rewrite forallb_forall. split.
  - intros Hall. right. intros h Hh.
    apply list_elem_of_In in Hh. specialize (Hall h Hh). simpl in Hall.
    apply existsb_exists in Hall as (a & Ha & Heq).
    apply bool_decide_eq_true in Heq. subst a. by apply list_elem_of_In.
  - intros [? | Hall]; [done |]. intros h Hh. simpl.
    apply existsb_exists. exists (CanonicalHeaderKey h). split.
    + by apply list_elem_of_In, Hall, list_elem_of_In.
    + by apply bool_decide_eq_true.
Qed.

(** C5: header admissibility is all-or-nothing.  When the policy does not
    allow all headers and one parsed requested header is, after
    canonicalization, not in [allowedHeaders], the list is rejected as a
    whole and the preflight path writes no header other than [Vary]: every
    other header of the response, the Access-Control-Allow-* ones among
    them, is left as it was. *)
Theorem preflight_headers_all_or_nothing (c : Cors) (w : ResponseWriter)
    (r : Request) (h : string) :
  allowedHeadersAll c = false →
  h ∈ requestedHeaders r →
  CanonicalHeaderKey h ∉ allowedHeaders c →
  areHeadersAllowed c (requestedHeaders r) = false
  ∧ ∀ k, k ≠ "Vary" →
      RespHeader (handlePreflight c w r) !! k = RespHeader w !! k.
Proof.
  intros Hall Hin Hnot.
  assert (areHeadersAllowed c (requestedHeaders r) = false) as Hrej
    by eauto using areHeadersAllowed_false.
  split; [done |]. intros k Hk.
  destruct (decide (Method r = MethodOptions)) as [Hm | Hm].
  - rewrite (handlePreflight_abort c w r Hm).
    + simpl. by apply lookup_addPreflightVary_ne.
    + by right; right; right.
  - by rewrite handlePreflight_not_options.
Qed.

(** The DisallowedHeader case of the test table: X-Header-3 is requested
    next to the allowed X-Header-1. *)
Lemma preflight_headers_all_or_nothing_witness :
  areHeadersAllowed
    (New {| AllowedOrigins := ["http://foobar.com"]; AllowOriginFunc := None;
            AllowedMethods := []; AllowedHeaders := ["X-Header-1"; "x-header-2"];
            ExposedHeaders := []; MaxAge := 0; AllowCredentials := false;
            OptionsPassthrough := false; Debug := false |})
    (requestedHeaders
       (NewRequest "OPTIONS"
          [("Origin", "http://foobar.com");
           ("Access-Control-Request-Method", "GET");
           ("Access-Control-Request-Headers", "X-Header-3, X-Header-1")]))
  = false
  ∧ ∀ k, k ≠ "Vary" →
      RespHeader
        (handlePreflight
           (New {| AllowedOrigins := ["http://foobar.com"];
                   AllowOriginFunc := None; AllowedMethods := [];
                   AllowedHeaders := ["X-Header-1"; "x-header-2"];
                   ExposedHeaders := []; MaxAge := 0; AllowCredentials := false;
                   OptionsPassthrough := false; Debug := false |})
           NewRecorder
           (NewRequest "OPTIONS"
              [("Origin", "http://foobar.com");
               ("Access-Control-Request-Method", "GET");
               ("Access-Control-Request-Headers", "X-Header-3, X-Header-1")]))
        !! k
      = RespHeader NewRecorder !! k.
Proof.
  apply (preflight_headers_all_or_nothing _ _ _ "X-Header-3").
  - vm_compute. reflexivity.
  - by_decide.
  - by_decide.
Defined.

(** The value a list with one element takes when it is compared with the
    wildcard. *)
Lemma allow_origin_star_iff (b : bool) (origin : string) :
  Some [if b then "*" else origin] = Some ["*"] ↔ b = true ∨ origin = "*".
Proof.
  destruct b; split; try (by left); try done.
  - intros [= ->]. by right.
  - by intros [? | ->].
Qed.

(** The five headers a successful preflight looks up, one by one. *)
Lemma handlePreflight_success_lookups (c : Cors) (w : ResponseWriter)
    (r : Request) :
  Method r = MethodOptions →
  requestOrigin r ≠ "" →
  isOriginAllowed c (requestOrigin r) = true →
  isMethodAllowed c (requestedMethod r) = true →
  areHeadersAllowed c (requestedHeaders r) = true →
  RespHeader (handlePreflight c w r) !! "Access-Control-Allow-Origin"
    = Some [if allowedOriginsAll c && negb (allowCredentials c)
            then "*" else requestOrigin r]
  ∧ RespHeader (handlePreflight c w r) !! "Access-Control-Allow-Methods"
    = Some [ToUpper (requestedMethod r)]
  ∧ RespHeader (handlePreflight c w r) !! "Access-Control-Allow-Headers"
    = (if decide (requestedHeaders r = [])
       then RespHeader w !! "Access-Control-Allow-Headers"
       else Some [Join (requestedHeaders r) ", "])
  ∧ RespHeader (handlePreflight c w r) !! "Access-Control-Allow-Credentials"
    = (if allowCredentials c then Some ["true"]
       else RespHeader w !! "Access-Control-Allow-Credentials")
  ∧ RespHeader (handlePreflight c w r) !! "Access-Control-Max-Age"
    = (if decide (0 < maxAge c) then Some [Strconv.Itoa (maxAge c)]
       else RespHeader w !! "Access-Control-Max-Age").
Proof.
  unfold requestOrigin, requestedMethod, requestedHeaders.
  intros Hm Ho Hoa Hma Hha. unfold handlePreflight.
  rewrite decide_False by (by intros []).
  rewrite decide_False by done. rewrite Hoa, Hma, Hha. simpl negb. cbv iota.
  fold (addPreflightVary (RespHeader w)).
  set (reqHeaders :=
         parseHeaderList (Get (ReqHeader r) "Access-Control-Request-Headers")).
  assert ((0 <? length reqHeaders)%nat
          = if decide (reqHeaders = []) then false else true) as ->.
  { by destruct reqHeaders. }
  assert ((0 <? maxAge c) = if decide (0 < maxAge c) then true else false) as ->.
  { case_decide; [by apply Z.ltb_lt | by apply Z.ltb_ge; lia]. }
  destruct (allowedOriginsAll c && negb (allowCredentials c)),
    (decide (reqHeaders = [])), (allowCredentials c), (decide (0 < maxAge c));
    simpl RespHeader; repeat apply conj; header_lookup;
    rewrite ?lookup_addPreflightVary_ne by discriminate; reflexivity.
Qed.

(** C6 (as the code has it): the headers of a successful preflight.
    Access-Control-Allow-Origin is ["*"] when the policy allows all origins
    and not credentials, and the request Origin as received otherwise; as the
    origin is echoed unchanged, the header also reads ["*"] for a request
    whose own Origin is the literal ["*"], whatever the policy: it is ["*"]
    exactly when the policy allows all origins without credentials or the
    request Origin is ["*"].  Access-Control-Allow-Methods is the upper-cased
    requested method alone; Access-Control-Allow-Headers is the parsed
    requested headers joined by [", "] when there are some and is not written
    otherwise; Access-Control-Allow-Credentials is ["true"] when credentials
    are allowed and is not written otherwise; Access-Control-Max-Age is the
    decimal [maxAge] when it is positive and is not written otherwise.  A
    header that is not written keeps whatever the response held. *)
Theorem handlePreflight_success_headers (c : Cors) (w : ResponseWriter)
    (r : Request) :
  Method r = MethodOptions →
  requestOrigin r ≠ "" →
  isOriginAllowed c (requestOrigin r) = true →
  isMethodAllowed c (requestedMethod r) = true →
  areHeadersAllowed c (requestedHeaders r) = true →
  RespHeader (handlePreflight c w r) !! "Access-Control-Allow-Origin"
    = Some [if allowedOriginsAll c && negb (allowCredentials c)
            then "*" else requestOrigin r]
  ∧ (RespHeader (handlePreflight c w r) !! "Access-Control-Allow-Origin"
       = Some ["*"]
     ↔ (allowedOriginsAll c = true ∧ allowCredentials c = false)
       ∨ requestOrigin r = "*")
  ∧ RespHeader (handlePreflight c w r) !! "Access-Control-Allow-Methods"
    = Some [ToUpper (requestedMethod r)]
  ∧ RespHeader (handlePreflight c w r) !! "Access-Control-Allow-Headers"
    = (if decide (requestedHeaders r = [])
       then RespHeader w !! "Access-Control-Allow-Headers"
       else Some [Join (requestedHeaders r) ", "])
  ∧ RespHeader (handlePreflight c w r) !! "Access-Control-Allow-Credentials"
    = (if allowCredentials c then Some ["true"]
       else RespHeader w !! "Access-Control-Allow-Credentials")
  ∧ RespHeader (handlePreflight c w r) !! "Access-Control-Max-Age"
    = (if decide (0 < maxAge c) then Some [Strconv.Itoa (maxAge c)]
       else RespHeader w !! "Access-Control-Max-Age").
Proof.
  intros Hm Ho Hoa Hma Hha.
  destruct (handlePreflight_success_lookups c w r Hm Ho Hoa Hma Hha)
    as (Horigin & Hrest).
  split; [done |]. split; [| done].
  rewrite Horigin, allow_origin_star_iff, andb_true_iff, negb_true_iff.
  tauto.
Qed.

(** The claim as the spec words it, with an "if and only if", fails on a
    request whose Origin is the literal ["*"]: [AllowAll] allows credentials,
    every check passes, and the echoed origin makes the answer
    Access-Control-Allow-Origin ["*"] next to
    Access-Control-Allow-Credentials ["true"]. *)
Lemma handlePreflight_echoes_star_origin :
  allowedOriginsAll AllowAll && negb (allowCredentials AllowAll) = false
  ∧ RespHeader
      (handlePreflight AllowAll NewRecorder
         (NewRequest "OPTIONS" [("Origin", "*");
                                ("Access-Control-Request-Method", "GET")]))
    !! "Access-Control-Allow-Origin" = Some ["*"]
  ∧ RespHeader
      (handlePreflight AllowAll NewRecorder
         (NewRequest "OPTIONS" [("Origin", "*");
                                ("Access-Control-Request-Method", "GET")]))
    !! "Access-Control-Allow-Credentials" = Some ["true"].
Proof. repeat apply conj; vm_compute; reflexivity. Qed.

(** The MaxAge case of the test table. *)
Lemma handlePreflight_success_headers_witness :
  RespHeader
    (handlePreflight
       (New {| AllowedOrigins := ["http://example.com/"];
               AllowOriginFunc := None; AllowedMethods := ["GET"];
               AllowedHeaders := []; ExposedHeaders := []; MaxAge := 10;
               AllowCredentials := false; OptionsPassthrough := false;
               Debug := false |})
       NewRecorder
       (NewRequest "OPTIONS" [("Origin", "http://example.com/");
                              ("Access-Control-Request-Method", "GET")]))
    !! "Access-Control-Max-Age" = Some ["10"].
Proof.
  set (c := New _). set (r := NewRequest _ _).
  refine (proj2 (proj2 (proj2 (proj2 (proj2
            (handlePreflight_success_headers c NewRecorder r _ _ _ _ _)))))).
  - reflexivity.
  - vm_compute. discriminate.
  - vm_compute. reflexivity.
  - vm_compute. reflexivity.
  - vm_compute. reflexivity.
Defined.

(** ** The adapters *)







(** C7: an OPTIONS request whose Access-Control-Request-Method header is
    absent or empty is not a preflight; every adapter sends it down the
    actual-request path, which returns at once for the method OPTIONS, so the
    adapter writes no header at all, not even [Vary]: [HandlerFunc] leaves the
    response as it was, [Handler] and [ServeHTTP] hand it unchanged to the
    downstream handler. *)
Theorem options_without_request_method (c : Cors) (h next : Http.Handler)
    (w : ResponseWriter) (r : Request) :
  Method r = MethodOptions →
  Get (ReqHeader r) "Access-Control-Request-Method" = "" →
  isPreflight r = false
  ∧ handleActualRequest c w r = w
  ∧ HandlerFunc c w r = w
  ∧ Handler c h w r = h w r
  ∧ ServeHTTP c w r next = next w r.
Proof.
  intros Hm Hacrm.
  assert (isPreflight r = false) as Hpre.
  { unfold isPreflight. rewrite Hacrm. simpl negb.
    by rewrite bool_decide_eq_true_2, andb_false_r. }
  assert (handleActualRequest c w r = w) as Hact.
  { unfold handleActualRequest. by rewrite decide_True. }
  unfold HandlerFunc, Handler, ServeHTTP. by rewrite Hpre, Hact.
Qed.

(** The NonPreflightOptions case of the test table. *)
Lemma options_without_request_method_witness :
  HandlerFunc (New (Options_origins ["http://foobar.com"])) NewRecorder
    (NewRequest "OPTIONS" []) = NewRecorder
  ∧ RespHeader
      (Handler (New (Options_origins ["http://foobar.com"])) testHandler
         NewRecorder (NewRequest "OPTIONS" [])) = ∅.
Proof.
  destruct (options_without_request_method
              (New (Options_origins ["http://foobar.com"]))
              testHandler testHandler NewRecorder (NewRequest "OPTIONS" []))
    as (_ & _ & HF & HH & _); [reflexivity | reflexivity |].
  split; [exact HF |]. rewrite HH. reflexivity.
Defined.

(** C10: a preflight handled by [Handler] without passthrough is closed with
    the status 200 and never reaches the downstream handler: the response is
    the one the preflight path leaves, with the status 200 written on it, for
    whatever downstream handler is wrapped, and its body is untouched.  This
    holds for a rejected preflight too, which differs from an accepted one
    only in that nothing beyond the three [Vary] entries is in the header
    map. *)
Theorem Handler_preflight_status_ok (c : Cors) (h : Http.Handler)
    (w : ResponseWriter) (r : Request) :
  optionPassthrough c = false →
  Method r = MethodOptions →
  Get (ReqHeader r) "Access-Control-Request-Method" ≠ "" →
  Code w = None →
  Handler c h w r = WriteHeader (handlePreflight c w r) StatusOK
  ∧ (∀ h' : Http.Handler, Handler c h' w r = Handler c h w r)
  ∧ Code (Handler c h w r) = Some StatusOK
  ∧ Body (Handler c h w r) = Body w
  ∧ (preflightRejected c r →
     RespHeader (Handler c h w r) = addPreflightVary (RespHeader w)).
Proof.
  intros Hpass Hm Hacrm Hcode.
  assert (isPreflight r = true) as Hpre by (by apply isPreflight_true).
  assert (∀ h' : Http.Handler,
            Handler c h' w r = WriteHeader (handlePreflight c w r) StatusOK)
    as Heq.
  { intros h'. unfold Handler. by rewrite Hpre, Hpass. }
  split; [apply Heq |]. split; [intros h'; by rewrite !Heq |].
  rewrite Heq, (handlePreflight_withHeader c w r).
  unfold WriteHeader. simpl. rewrite Hcode. simpl.
  split; [done |]. split; [done |].
  intros Hrej. by rewrite (handlePreflight_abort c w r Hm Hrej).
Qed.

(** The DisallowedMethod case of the test table: PATCH is requested, PUT and
    DELETE are allowed. *)
Lemma Handler_preflight_status_ok_witness :
  Code
    (Handler
       (New {| AllowedOrigins := ["http://foobar.com"]; AllowOriginFunc := None;
               AllowedMethods := ["PUT"; "DELETE"]; AllowedHeaders := [];
               ExposedHeaders := []; MaxAge := 0; AllowCredentials := false;
               OptionsPassthrough := false; Debug := false |})
       testHandler NewRecorder
       (NewRequest "OPTIONS" [("Origin", "http://foobar.com");
                              ("Access-Control-Request-Method", "PATCH")]))
  = Some StatusOK.
Proof.
  set (c := New _). set (r := NewRequest _ _).
  refine (proj1 (proj2 (proj2
            (Handler_preflight_status_ok c testHandler NewRecorder r _ _ _ _)))).
  - reflexivity.
  - reflexivity.
  - vm_compute. discriminate.
  - reflexivity.
Defined.

(** ** Methods *)

Lemma existsb_eq_elem_of (l : list string) (x : string) :
  existsb (λ m, bool_decide (m = x)) l = bool_decide (x ∈ l).
Proof.
  apply eq_true_iff_eq. rewrite existsb_exists, bool_decide_eq_true. split.
  - intros (a & Ha & Heq). apply bool_decide_eq_true in Heq. subst a.
    by apply list_elem_of_In.
  - intros Hin. exists x. split; [by apply list_elem_of_In |].
    by apply bool_decide_eq_true.
Qed.

(** [isMethodAllowed] in one formula: an empty list rejects everything, a
    non-empty one admits OPTIONS and its own members. *)
Lemma isMethodAllowed_eq c method :
  isMethodAllowed c method =
    match allowedMethods c with
    | [] => false
    | _ => bool_decide (ToUpper method ∈ MethodOptions :: allowedMethods c)
    end.
Proof.
  unfold isMethodAllowed. destruct (allowedMethods c) as [|m l] eqn:Hl; [done |].
  simpl length. change (S (length l) =? 0)%nat with false. cbv iota.
  rewrite existsb_eq_elem_of. case_decide as Hopt.
  - symmetry. apply bool_decide_eq_true. rewrite Hopt. apply list_elem_of_here.
  - apply bool_decide_ext. rewrite (elem_of_cons (m :: l)).
    split; [by right | by intros [? | ?]].
Qed.

(** The policy compiled from an empty list of methods holds the simple
    methods. *)
Lemma New_default_methods options :
  AllowedMethods options = [] →
  allowedMethods (New options) = ["GET"; "POST"; "HEAD"].
Proof.
  intros Hnil. unfold New.
  destruct (if (length (AllowedOrigins options) =? 0)%nat then _ else _)
    as [[all exact] wild].
  destruct (if (length (AllowedHeaders options) =? 0)%nat then _ else _)
    as [hall hdrs].
  simpl. by rewrite Hnil.
Qed.

(** A compiled policy never has an empty list of methods. *)
Lemma New_methods_nonempty options : allowedMethods (New options) ≠ [].
Proof.
  unfold New.
  destruct (if (length (AllowedOrigins options) =? 0)%nat then _ else _)
    as [[all exact] wild].
  destruct (if (length (AllowedHeaders options) =? 0)%nat then _ else _)
    as [hall hdrs].
  simpl. by destruct (AllowedMethods options).
Qed.

(** C4 (as the code has it): an empty configured AllowedMethods compiles to
    the default GET, POST, HEAD, so on such a policy [isMethodAllowed] holds
    exactly for the methods that upper-case to OPTIONS, GET, POST or HEAD.
    OPTIONS is admitted by every policy whose [allowedMethods] is not empty,
    whatever the list holds, which covers every compiled policy.  A policy
    whose [allowedMethods] is empty admits no method, OPTIONS included. *)
Theorem isMethodAllowed_spec :
  (∀ options method,
      AllowedMethods options = [] →
      isMethodAllowed (New options) method
      = bool_decide (ToUpper method ∈ ["OPTIONS"; "GET"; "POST"; "HEAD"]))
  ∧ (∀ c method,
      allowedMethods c ≠ [] → ToUpper method = "OPTIONS" →
      isMethodAllowed c method = true)
  ∧ (∀ options method,
      ToUpper method = "OPTIONS" → isMethodAllowed (New options) method = true)
  ∧ (∀ c method, allowedMethods c = [] → isMethodAllowed c method = false).
Proof.
  assert (∀ c method, allowedMethods c ≠ [] → ToUpper method = "OPTIONS" →
                      isMethodAllowed c method = true) as Hopt.
  { intros c method Hne Hup. rewrite isMethodAllowed_eq.
    destruct (allowedMethods c); [done |].
    apply bool_decide_eq_true. rewrite Hup. apply list_elem_of_here. }
  split; [| split; [done | split]].
  - intros options method Hnil.
    by rewrite isMethodAllowed_eq, (New_default_methods options Hnil).
  - intros options method. apply Hopt, New_methods_nonempty.
  - intros c method Hnil. by rewrite isMethodAllowed_eq, Hnil.
Qed.

(** The claim as the spec words it fails on the policy compiled from the
    zero options: GET is in the default list and is admitted; and on a policy
    with no method at all OPTIONS is rejected like every other method. *)
Lemma isMethodAllowed_default_admits_GET :
  AllowedMethods Options_zero = []
  ∧ isMethodAllowed (New Options_zero) "GET" = true
  ∧ isMethodAllowed
      {| log := false; allowedOrigins := []; allowedWOrigins := [];
         allowOriginFunc := None; allowedHeaders := []; allowedMethods := [];
         exposedHeaders := []; maxAge := 0; allowedOriginsAll := true;
         allowedHeadersAll := false; allowCredentials := false;
         optionPassthrough := false |} "OPTIONS" = false.
Proof. by vm_compute. Qed.

(** [TestIsMethodAllowedReturnsFalseWithNoMethods] and
    [TestIsMethodAllowedReturnsTrueWithOptions]. *)
Lemma isMethodAllowed_spec_witness :
  isMethodAllowed (New Options_zero) "PUT" = false
  ∧ isMethodAllowed (New Options_zero) "OPTIONS" = true
  ∧ isMethodAllowed (New Options_zero) "options" = true.
Proof.
  destruct isMethodAllowed_spec as (Hdef & Hopt & Hnew & Hnil).
  split; [| split].
  - rewrite (Hdef Options_zero "PUT"); reflexivity.
  - apply (Hopt (New Options_zero) "OPTIONS"); [vm_compute; discriminate |].
    reflexivity.
  - apply (Hnew Options_zero "options"). reflexivity.
Defined.

(** ** Origins *)

(** With a predicate the lists and the allow-all flag play no part in the
    admissibility of an origin. *)
Lemma isOriginAllowed_func c f origin :
  allowOriginFunc c = Some f → isOriginAllowed c origin = f origin.
Proof. intros Hf. unfold isOriginAllowed. by rewrite Hf. Qed.

Lemma New_allowOriginFunc options :
  allowOriginFunc (New options) = AllowOriginFunc options.
Proof.
  unfold New.
  destruct (if (length (AllowedOrigins options) =? 0)%nat then _ else _)
    as [[all exact] wild].
  by destruct (if (length (AllowedHeaders options) =? 0)%nat then _ else _)
    as [hall hdrs].
Qed.

(** C1 (the code departs from the claim): with a predicate that admits every
    origin, the list [["*"]] is not ignored.  It sets [allowedOriginsAll], and
    a simple GET from [http://foobar.com] is answered with
    Access-Control-Allow-Origin ["*"], while the same configuration without
    the list echoes the origin.  The admissibility itself is the predicate's
    in both. *)
Theorem allowOriginFunc_star_not_ignored :
  allowedOriginsAll (New (Options_origins_func ["*"] (λ _, true))) = true
  ∧ allowedOriginsAll (New (Options_origins_func [] (λ _, true))) = false
  ∧ RespHeader
      (HandlerFunc (New (Options_origins_func ["*"] (λ _, true))) NewRecorder
         (NewRequest "GET" [("Origin", "http://foobar.com")]))
    = {["Vary" := ["Origin"]; "Access-Control-Allow-Origin" := ["*"]]}
  ∧ RespHeader
      (HandlerFunc (New (Options_origins_func [] (λ _, true))) NewRecorder
         (NewRequest "GET" [("Origin", "http://foobar.com")]))
    = {["Vary" := ["Origin"];
        "Access-Control-Allow-Origin" := ["http://foobar.com"]]}
  ∧ (∀ origins f origin,
       isOriginAllowed (New (Options_origins_func origins f)) origin = f origin).
Proof.
  do 4 (split; [vm_compute; reflexivity |]).
  intros origins f origin. apply isOriginAllowed_func.
  by rewrite New_allowOriginFunc.
Qed.

(** ** Header lists *)

Section split_trim_facts.
Implicit Types s t : string.

Lemma Split_nonempty s sep : Split s sep ≠ [].
Proof.
  destruct s as [|c s]; simpl; [done |].
  destruct (Ascii.eqb c sep); [done |]. by destruct (Split s sep).
Qed.

(** The pieces, glued back with the separator, are the input ... *)
Lemma Join_Split s sep : Join (Split s sep) (String sep "") = s.
Proof.
  induction s as [|c s IH]; [done |]. simpl Split.
  pose proof (Split_nonempty s sep) as Hne.
  destruct (Ascii.eqb_spec c sep) as [-> | Hc].
  - destruct (Split s sep) as [|t ts]; [done |].
    change (Join ("" :: t :: ts) (String sep ""))
      with (String sep (Join (t :: ts) (String sep ""))).
    by rewrite IH.
  - destruct (Split s sep) as [|t ts]; [done |]. rewrite <- IH.
    destruct ts as [|t' ts]; [done |].
    change (Join (String c t :: t' :: ts) (String sep ""))
      with (String c t +:+ String sep "" +:+ Join (t' :: ts) (String sep "")).
    by rewrite string_app_cons.
Qed.

(** ... and no piece holds the separator. *)
Lemma Split_no_sep s sep t : t ∈ Split s sep → IndexByte t sep = -1.
Proof.
  revert t. induction s as [|c s IH]; intros t; simpl Split.
  - by intros ->%list_elem_of_singleton.
  - destruct (Ascii.eqb_spec c sep) as [-> | Hc].
    + intros [-> | Hin]%elem_of_cons; [done | by apply IH].
    + pose proof (Split_nonempty s sep) as Hne.
      destruct (Split s sep) as [|u us]; [done |].
      intros [-> | Hin]%elem_of_cons.
      * simpl. destruct (Ascii.eqb_spec c sep) as [|_]; [done |].
        by rewrite (IH u (list_elem_of_here _ _)).
      * apply IH. by apply list_elem_of_further.
Qed.

Lemma TrimLeft_split s : ∃ l, s = l +:+ TrimLeft s ∧ allSpaces l = true.
Proof.
  induction s as [|c s (l & Hs & Hl)]; simpl; [by exists "" |].
  destruct (isSpace c) eqn:Hc.
  - exists (String c l). rewrite string_app_cons, <- Hs. simpl.
    by rewrite Hc, Hl.
  - by exists "".
Qed.

Lemma TrimLeft_head s c t : TrimLeft s = String c t → isSpace c = false.
Proof.
  induction s as [|b s IH]; simpl; [done |].
  destruct (isSpace b) eqn:Hb; [done |]. by intros [= <- _].
Qed.

Lemma TrimRight_split s : ∃ r, s = TrimRight s +:+ r ∧ allSpaces r = true.
Proof.
  induction s as [|c s (r & Hs & Hr)]; simpl; [by exists "" |].
  destruct (TrimRight s) as [|b u] eqn:Hu.
  - rewrite string_app_nil_l in Hs. subst r.
    destruct (isSpace c) eqn:Hc.
    + exists (String c s). simpl. by rewrite Hc, Hr.
    + by exists s.
  - exists r. by rewrite string_app_cons, <- Hs.
Qed.

Lemma TrimRight_last s c t :
  TrimRight s = t +:+ String c "" → isSpace c = false.
Proof.
  revert t. induction s as [|b s IH]; intros t; simpl.
  - by destruct t.
  - destruct (TrimRight s) as [|a u] eqn:Hu.
    + destruct (isSpace b) eqn:Hb; [by destruct t |].
      destruct t as [|a t]; [by intros [= <-] |].
      rewrite string_app_cons. intros [= _ Ht]. by destruct t.
    + destruct t as [|a' t].
      * rewrite string_app_nil_l. by intros [= _ ?].
      * rewrite string_app_cons. intros [= _ Ht]. by apply (IH t).
Qed.

(** [TrimSpace] removes a run of white space at each end and nothing else,
    and what is left neither starts nor ends with white space. *)
Lemma TrimSpace_spec s :
  (∃ l r, s = l +:+ TrimSpace s +:+ r
          ∧ allSpaces l = true ∧ allSpaces r = true)
  ∧ (∀ c t, TrimSpace s = String c t → isSpace c = false)
  ∧ (∀ c t, TrimSpace s = t +:+ String c "" → isSpace c = false).
Proof.
  unfold TrimSpace. split; [| split].
  - destruct (TrimLeft_split s) as (l & Hs & Hl).
    destruct (TrimRight_split (TrimLeft s)) as (r & Hu & Hr).
    exists l, r. by rewrite <- Hu.
  - intros c t Ht.
    destruct (TrimRight_split (TrimLeft s)) as (r & Hu & _).
    rewrite Ht, string_app_cons in Hu. by apply TrimLeft_head in Hu.
  - intros c t. apply TrimRight_last.
Qed.

End split_trim_facts.

Section header_list_facts.

Lemma elem_of_dedupFirst (l : list string) x : x ∈ dedupFirst l ↔ x ∈ l.
Proof.
  induction l as [|a l IH]; simpl; [done |].
  rewrite !elem_of_cons, list_elem_of_filter, IH.
  destruct (decide (x = a)) as [-> | Hne]; [by split; [left | left] |].
  split; [intros [? | [_ ?]]; [done | by right] | intros [? | ?]; [done |]].
  by right.
Qed.

Lemma NoDup_dedupFirst (l : list string) : NoDup (dedupFirst l).
Proof.
  induction l as [|a l IH]; simpl; [constructor |].
  apply NoDup_cons. split.
  - rewrite list_elem_of_filter. by intros [? _].
  - by apply NoDup_filter.
Qed.

Lemma canonicalTokens_cons token tokens :
  canonicalTokens (token :: tokens) =
    if decide (TrimSpace token = "") then canonicalTokens tokens
    else headerCase true (TrimSpace token) :: canonicalTokens tokens.
Proof.
  unfold canonicalTokens. rewrite fmap_cons, filter_cons.
  destruct (decide (TrimSpace token = "")) as [He | Hne].
  - by rewrite decide_False by (by intros []).
  - by rewrite decide_True by done.
Qed.

(** The loop with its set of seen names against the declarative reading:
    the names collected so far, then the first occurrences of the new
    ones. *)
Lemma parseHeaderList_loop_spec tokens (seen : gset string) headers :
  (∀ x, x ∈ seen ↔ x ∈ headers) →
  parseHeaderList_loop tokens seen headers
  = headers
      ++ filter (λ y, y ∉ headers) (dedupFirst (canonicalTokens tokens)).
Proof.
  revert seen headers.
  induction tokens as [|token tokens IH]; intros seen headers Hseen.
  { simpl. by rewrite app_nil_r. }
  cbn [parseHeaderList_loop]. rewrite canonicalTokens_cons.
  destruct (decide (TrimSpace token = "")) as [He | Hne]; [by apply IH |].
  set (h := headerCase true (TrimSpace token)).
  cbn [dedupFirst]. destruct (decide (h ∈ seen)) as [Hin | Hnin].
  - rewrite (IH seen headers Hseen).
    rewrite filter_cons_False by (intros Hh; by apply Hh, Hseen).
    rewrite list_filter_filter. f_equal. apply list_filter_iff.
    intros y. split; [| by intros [? _]].
    intros Hy. split; [done |]. intros ->. by apply Hy, Hseen.
  - rewrite (IH ({[h]} ∪ seen) (headers ++ [h])).
    2:{ intros x. rewrite elem_of_union, elem_of_singleton, elem_of_app,
          list_elem_of_singleton, Hseen. tauto. }
    rewrite filter_cons_True by (by rewrite <- Hseen).
    rewrite list_filter_filter, <- (assoc_L (++)). simpl. do 2 f_equal.
    apply list_filter_iff. intros y.
    rewrite not_elem_of_app, list_elem_of_singleton. tauto.
Qed.

Lemma parseHeaderList_dedupFirst headerList :
  parseHeaderList headerList
  = dedupFirst (canonicalTokens (Split headerList ",")).
Proof.
  unfold parseHeaderList. rewrite parseHeaderList_loop_spec.
  - simpl. induction (dedupFirst _) as [|a l IH]; [done |].
    rewrite filter_cons_True by apply not_elem_of_nil. by rewrite IH.
  - intros x. split; [intros []%not_elem_of_empty | intros []%not_elem_of_nil].
Qed.

Lemma headerCase_cons upper c s :
  headerCase upper (String c s) =
    String (headerCaseByte upper c)
      (headerCase (Ascii.eqb (headerCaseByte upper c) "-") s).
Proof. reflexivity. Qed.

Lemma headerCaseByte_lower upper c :
  lowerByte (headerCaseByte upper c) = lowerByte c.
Proof. destruct upper, c as [[] [] [] [] [] [] [] []]; reflexivity. Qed.

Lemma headerCaseByte_of_lower upper c :
  headerCaseByte upper (lowerByte c) = headerCaseByte upper c.
Proof. destruct upper, c as [[] [] [] [] [] [] [] []]; reflexivity. Qed.

Lemma headerCaseByte_idemp upper c :
  headerCaseByte upper (headerCaseByte upper c) = headerCaseByte upper c.
Proof. destruct upper, c as [[] [] [] [] [] [] [] []]; reflexivity. Qed.

(** Header-name case changes the case of letters only ... *)
Lemma ToLower_headerCase upper s : ToLower (headerCase upper s) = ToLower s.
Proof.
  revert upper. induction s as [|c s IH]; intros upper; [done |].
  rewrite headerCase_cons. unfold ToLower in *. simpl.
  by rewrite headerCaseByte_lower, IH.
Qed.

(** ... and is blind to the case of its input. *)
Lemma headerCase_ToLower upper s :
  headerCase upper (ToLower s) = headerCase upper s.
Proof.
  revert upper. induction s as [|c s IH]; intros upper; [done |].
  unfold ToLower in *. simpl Map. rewrite !headerCase_cons.
  by rewrite headerCaseByte_of_lower, IH.
Qed.

Lemma headerCase_idemp upper s :
  headerCase upper (headerCase upper s) = headerCase upper s.
Proof.
  revert upper. induction s as [|c s IH]; intros upper; [done |].
  rewrite !headerCase_cons. by rewrite headerCaseByte_idemp, IH.
Qed.

Lemma headerCase_nonempty upper s : s ≠ "" → headerCase upper s ≠ "".
Proof. by destruct s. Qed.

Lemma elem_of_canonicalTokens tokens h :
  h ∈ canonicalTokens tokens ↔
    ∃ token, token ∈ tokens ∧ TrimSpace token ≠ ""
             ∧ h = headerCase true (TrimSpace token).
Proof.
  unfold canonicalTokens. rewrite list_elem_of_fmap. split.
  - intros (t & -> & Ht). apply list_elem_of_filter in Ht as [Hne Ht].
    apply list_elem_of_fmap in Ht as (token & -> & Htoken). by exists token.
  - intros (token & Htoken & Hne & ->). exists (TrimSpace token).
    split; [done |]. apply list_elem_of_filter. split; [done |].
    apply list_elem_of_fmap. by exists token.
Qed.

End header_list_facts.

(** C8: [parseHeaderList] splits on commas, trims each token, drops the empty
    ones, puts the others in header-name case and keeps the first occurrence
    of each name, in order.  So a name is in the result exactly when it is
    the canonical form of a non-empty trimmed token; no name of the result is
    empty; each is in header-name case; no two names of the result are equal
    up to case.  The three cases of the tests evaluate as expected. *)
Theorem parseHeaderList_spec :
  (∀ headerList,
      parseHeaderList headerList
      = dedupFirst
          (headerCase true
             <$> filter (λ t, t ≠ "") (TrimSpace <$> Split headerList ",")))
  ∧ (∀ headerList h,
      h ∈ parseHeaderList headerList ↔
        ∃ token, token ∈ Split headerList "," ∧ TrimSpace token ≠ ""
                 ∧ h = headerCase true (TrimSpace token))
  ∧ (∀ headerList h,
      h ∈ parseHeaderList headerList → h ≠ "" ∧ headerCase true h = h)
  ∧ (∀ headerList, NoDup (ToLower <$> parseHeaderList headerList))
  ∧ parseHeaderList "header, second-header, THIRD-HEADER, Numb3r3d-H34d3r"
    = ["Header"; "Second-Header"; "Third-Header"; "Numb3r3d-H34d3r"]
  ∧ parseHeaderList "" = []
  ∧ parseHeaderList ", " = [].
Proof.
  assert (∀ headerList h,
            h ∈ parseHeaderList headerList ↔
              ∃ token, token ∈ Split headerList "," ∧ TrimSpace token ≠ ""
                       ∧ h = headerCase true (TrimSpace token)) as Helem.
  { intros headerList h.
    by rewrite parseHeaderList_dedupFirst, elem_of_dedupFirst,
      elem_of_canonicalTokens. }
  split; [apply parseHeaderList_dedupFirst |]. split; [done |].
  split; [| split; [| by vm_compute]].
  - intros headerList h (token & _ & Hne & ->)%Helem.
    split; [by apply headerCase_nonempty | apply headerCase_idemp].
  - intros headerList. apply NoDup_fmap_2_strong.
    + intros x y (tx & _ & _ & ->)%Helem (ty & _ & _ & ->)%Helem.
      rewrite !ToLower_headerCase. intros Heq.
      by rewrite <- (headerCase_ToLower true (TrimSpace tx)), Heq,
        headerCase_ToLower.
    + rewrite parseHeaderList_dedupFirst. apply NoDup_dedupFirst.
Qed.

Lemma parseHeaderList_spec_witness :
  "X-Header-1" ≠ "" ∧ headerCase true "X-Header-1" = "X-Header-1".
Proof.
  apply (proj1 (proj2 (proj2 parseHeaderList_spec))
           "x-header-2, X-HEADER-1, x-header-1").
  by_decide.
Defined.


(** * Further properties of the engine *)

(** ** The actual-request path *)

Lemma handleActualRequest_options c w r :
  Method r = MethodOptions → handleActualRequest c w r = w.
Proof. intros Hm. unfold handleActualRequest. by rewrite decide_True. Qed.

Lemma handleActualRequest_abort c w r :
  Method r ≠ MethodOptions → actualRejected c r →
  handleActualRequest c w r
  = withHeader w (Add (RespHeader w) "Vary" "Origin").
Proof.
  unfold actualRejected, requestOrigin. intros Hm Hrej.
  unfold handleActualRequest. rewrite decide_False by done.
  destruct (decide (Get (ReqHeader r) "Origin" = "")) as [|Ho]; [done |].
  destruct (isOriginAllowed c _); [simpl | done].
  destruct (isMethodAllowed c _); [simpl | done].
  by destruct Hrej as [? | [? | ?]].
Qed.

(** A simple request that passes the three checks gets the [Vary] entry, the
    allowed origin (["*"] when all origins are allowed without credentials,
    the request origin as received otherwise), the exposed headers when there
    are some and the credentials flag when it is configured; every other
    response header is left as it was. *)
Theorem handleActualRequest_success_headers (c : Cors) (w : ResponseWriter)
    (r : Request) :
  Method r ≠ MethodOptions →
  requestOrigin r ≠ "" →
  isOriginAllowed c (requestOrigin r) = true →
  isMethodAllowed c (Method r) = true →
  RespHeader (handleActualRequest c w r) !! "Vary"
    = Some (default [] (RespHeader w !! "Vary") ++ ["Origin"])
  ∧ RespHeader (handleActualRequest c w r) !! "Access-Control-Allow-Origin"
    = Some [if allowedOriginsAll c && negb (allowCredentials c)
            then "*" else requestOrigin r]
  ∧ RespHeader (handleActualRequest c w r) !! "Access-Control-Expose-Headers"
    = (if decide (exposedHeaders c = [])
       then RespHeader w !! "Access-Control-Expose-Headers"
       else Some [Join (exposedHeaders c) ", "])
  ∧ RespHeader (handleActualRequest c w r) !! "Access-Control-Allow-Credentials"
    = (if allowCredentials c then Some ["true"]
       else RespHeader w !! "Access-Control-Allow-Credentials")
  ∧ ∀ k, k ∉ ["Vary"; "Access-Control-Allow-Origin";
              "Access-Control-Expose-Headers";
              "Access-Control-Allow-Credentials"] →
      RespHeader (handleActualRequest c w r) !! k = RespHeader w !! k.
Proof.
  unfold requestOrigin. intros Hm Ho Hoa Hma. unfold handleActualRequest.
  rewrite decide_False by done. rewrite decide_False by done.
  rewrite Hoa, Hma. simpl negb. cbv iota.
  assert ((0 <? length (exposedHeaders c))%nat
          = if decide (exposedHeaders c = []) then false else true) as ->.
  { by destruct (exposedHeaders c). }
  split; [| split; [| split; [| split]]].
  5:{ intros k Hk. rewrite !not_elem_of_cons in Hk.
      destruct Hk as (? & ? & ? & ? & _).
      destruct (allowedOriginsAll c && negb (allowCredentials c)),
        (decide (exposedHeaders c = [])), (allowCredentials c);
        simpl RespHeader; header_lookup; reflexivity. }
  all: destruct (allowedOriginsAll c && negb (allowCredentials c)),
      (decide (exposedHeaders c = [])), (allowCredentials c);
    simpl RespHeader; header_lookup; reflexivity.
Qed.

(** The ExposedHeader case of the test table. *)
Lemma handleActualRequest_success_headers_witness :
  RespHeader
    (handleActualRequest
       (New {| AllowedOrigins := ["http://foobar.com"]; AllowOriginFunc := None;
               AllowedMethods := []; AllowedHeaders := [];
               ExposedHeaders := ["X-Header-1"; "x-header-2"]; MaxAge := 0;
               AllowCredentials := false; OptionsPassthrough := false;
               Debug := false |})
       NewRecorder (NewRequest "GET" [("Origin", "http://foobar.com")]))
    !! "Access-Control-Expose-Headers" = Some ["X-Header-1, X-Header-2"].
Proof.
  set (c := New _). set (r := NewRequest _ _).
  refine (proj1 (proj2 (proj2
            (handleActualRequest_success_headers c NewRecorder r _ _ _ _)))).
  - vm_compute. discriminate.
  - vm_compute. discriminate.
  - vm_compute. reflexivity.
  - vm_compute. reflexivity.
Defined.

(** The actual-request path leaves an OPTIONS request alone; for any other
    method it appends [Vary: Origin] whatever happens next, and a request
    without origin, from an origin that is not allowed or with a method that
    is not allowed gets that entry and nothing else. *)
Theorem handleActualRequest_vary_then_abort (c : Cors) (w : ResponseWriter)
    (r : Request) :
  (Method r = MethodOptions → handleActualRequest c w r = w)
  ∧ (Method r ≠ MethodOptions →
     RespHeader (handleActualRequest c w r) !! "Vary"
     = Some (default [] (RespHeader w !! "Vary") ++ ["Origin"]))
  ∧ (Method r ≠ MethodOptions → actualRejected c r →
     handleActualRequest c w r
     = withHeader w (Add (RespHeader w) "Vary" "Origin")
     ∧ ∀ k, k ≠ "Vary" →
         RespHeader (handleActualRequest c w r) !! k = RespHeader w !! k).
Proof.
  split; [apply handleActualRequest_options |]. split.
  - intros Hm. unfold handleActualRequest. rewrite decide_False by done.
    repeat (match goal with
            | |- context [if ?b then _ else _] => destruct b
            end; simpl; try done);
      by header_keys.
  - intros Hm Hrej. rewrite (handleActualRequest_abort c w r Hm Hrej).
    split; [done |]. intros k Hk. simpl. by header_other.
Qed.

(** The DisallowedOrigin case of the test table. *)
Lemma handleActualRequest_vary_then_abort_witness :
  handleActualRequest (New (Options_origins ["http://foobar.com"])) NewRecorder
    (NewRequest "OPTIONS" []) = NewRecorder
  ∧ RespHeader
      (handleActualRequest (New (Options_origins ["http://foobar.com"]))
         NewRecorder (NewRequest "GET" [("Origin", "http://barbaz.com")]))
    = {["Vary" := ["Origin"]]}.
Proof.
  split.
  - apply (proj1 (handleActualRequest_vary_then_abort
                    (New (Options_origins ["http://foobar.com"])) NewRecorder
                    (NewRequest "OPTIONS" []))).
    reflexivity.
  - destruct (proj2 (proj2 (handleActualRequest_vary_then_abort
               (New (Options_origins ["http://foobar.com"])) NewRecorder
               (NewRequest "GET" [("Origin", "http://barbaz.com")]))))
      as [-> _].
    + vm_compute. discriminate.
    + right. left. vm_compute. reflexivity.
    + vm_compute. reflexivity.
Defined.

(** ** What the engine leaves alone *)

Ltac destruct_ifs :=
  repeat (match goal with
          | |- context [if ?b then _ else _] => destruct b
          end; simpl; try done).

Lemma handlePreflight_lookup_other c w r k :
  k ∉ ["Vary"; "Access-Control-Allow-Origin"; "Access-Control-Allow-Methods";
       "Access-Control-Allow-Headers"; "Access-Control-Allow-Credentials";
       "Access-Control-Max-Age"] →
  RespHeader (handlePreflight c w r) !! k = RespHeader w !! k.
Proof.
  intros Hk. rewrite !not_elem_of_cons in Hk.
  destruct Hk as (? & ? & ? & ? & ? & ? & _).
  unfold handlePreflight. destruct_ifs; header_lookup; reflexivity.
Qed.

Lemma handleActualRequest_lookup_other c w r k :
  k ∉ ["Vary"; "Access-Control-Allow-Origin"; "Access-Control-Expose-Headers";
       "Access-Control-Allow-Credentials"] →
  RespHeader (handleActualRequest c w r) !! k = RespHeader w !! k.
Proof.
  intros Hk. rewrite !not_elem_of_cons in Hk.
  destruct Hk as (? & ? & ? & ? & _).
  unfold handleActualRequest. destruct_ifs; header_lookup; reflexivity.
Qed.

Lemma is_Some_Put (h : gmap string (list string)) key value k :
  is_Some (h !! k) → is_Some (Put h key value !! k).
Proof. intros Hk. rewrite lookup_Put. by case_decide. Qed.

Lemma is_Some_Add (h : gmap string (list string)) key value k :
  is_Some (h !! k) → is_Some (Add h key value !! k).
Proof. intros Hk. rewrite lookup_Add. by case_decide. Qed.

Lemma handlePreflight_is_Some c w r k :
  is_Some (RespHeader w !! k) →
  is_Some (RespHeader (handlePreflight c w r) !! k).
Proof.
  intros Hk. unfold handlePreflight.
  destruct_ifs; repeat first [apply is_Some_Put | apply is_Some_Add]; done.
Qed.

Lemma handleActualRequest_is_Some c w r k :
  is_Some (RespHeader w !! k) →
  is_Some (RespHeader (handleActualRequest c w r) !! k).
Proof.
  intros Hk. unfold handleActualRequest.
  destruct_ifs; repeat first [apply is_Some_Put | apply is_Some_Add]; done.
Qed.

(** The engine writes to the header map only, and there only to its seven
    names: the status and the body of the response stay, every header under
    another name stays, and no header that was present is removed. *)
Theorem HandlerFunc_footprint (c : Cors) (w : ResponseWriter) (r : Request) :
  Code (HandlerFunc c w r) = Code w
  ∧ Body (HandlerFunc c w r) = Body w
  ∧ (∀ k, k ∉ corsHeaderNames →
       RespHeader (HandlerFunc c w r) !! k = RespHeader w !! k)
  ∧ (∀ k, is_Some (RespHeader w !! k) →
       is_Some (RespHeader (HandlerFunc c w r) !! k)).
Proof.
  unfold HandlerFunc, corsHeaderNames. destruct (isPreflight r).
  - rewrite (handlePreflight_withHeader c w r) at 1 2.
    split; [done |]. split; [done |]. split.
    + intros k Hk. apply handlePreflight_lookup_other.
      rewrite !not_elem_of_cons in Hk. rewrite !not_elem_of_cons. tauto.
    + apply handlePreflight_is_Some.
  - rewrite (handleActualRequest_withHeader c w r) at 1 2.
    split; [done |]. split; [done |]. split.
    + intros k Hk. apply handleActualRequest_lookup_other.
      rewrite !not_elem_of_cons in Hk. rewrite !not_elem_of_cons. tauto.
    + apply handleActualRequest_is_Some.
Qed.

Lemma HandlerFunc_footprint_witness :
  is_Some
    (RespHeader
       (HandlerFunc Default
          {| RespHeader := {["Content-Type" := ["text/plain"]]};
             Code := None; Body := "" |}
          (NewRequest "GET" [("Origin", "http://foobar.com")]))
       !! "Content-Type").
Proof.
  apply (proj2 (proj2 (proj2 (HandlerFunc_footprint _ _ _)))).
  vm_compute. by eexists.
Defined.

(** Each path has its own headers: the actual-request path never writes
    Access-Control-Allow-Methods, Access-Control-Allow-Headers or
    Access-Control-Max-Age, the preflight path never writes
    Access-Control-Expose-Headers, and no path writes
    Access-Control-Max-Age when [maxAge] is zero or negative. *)
Theorem headers_by_path (c : Cors) (w : ResponseWriter) (r : Request) :
  (∀ k, k ∈ ["Access-Control-Allow-Methods"; "Access-Control-Allow-Headers";
             "Access-Control-Max-Age"] →
     RespHeader (handleActualRequest c w r) !! k = RespHeader w !! k)
  ∧ RespHeader (handlePreflight c w r) !! "Access-Control-Expose-Headers"
    = RespHeader w !! "Access-Control-Expose-Headers"
  ∧ (maxAge c ≤ 0 →
     RespHeader (HandlerFunc c w r) !! "Access-Control-Max-Age"
     = RespHeader w !! "Access-Control-Max-Age").
Proof.
  split; [| split].
  - intros k Hk. apply handleActualRequest_lookup_other.
    rewrite !elem_of_cons in Hk. rewrite !not_elem_of_cons.
    destruct Hk as [-> | [-> | [-> | []%elem_of_nil]]];
      repeat split; first [discriminate | apply not_elem_of_nil].
  - apply handlePreflight_lookup_other. rewrite !not_elem_of_cons.
    repeat split; first [discriminate | apply not_elem_of_nil].
  - intros Hage. unfold HandlerFunc. destruct (isPreflight r).
    + unfold handlePreflight.
      assert ((0 <? maxAge c) = false) as Hltb by (apply Z.ltb_ge; lia).
      rewrite Hltb. destruct_ifs; header_lookup; reflexivity.
    + apply handleActualRequest_lookup_other. rewrite !not_elem_of_cons.
      repeat split; first [discriminate | apply not_elem_of_nil].
Qed.

Lemma headers_by_path_witness :
  RespHeader
    (HandlerFunc (New (Options_origins ["http://foobar.com"])) NewRecorder
       (NewRequest "OPTIONS" [("Origin", "http://foobar.com");
                              ("Access-Control-Request-Method", "GET")]))
    !! "Access-Control-Max-Age" = None.
Proof.
  refine (proj2 (proj2 (headers_by_path _ NewRecorder _)) _).
  vm_compute. discriminate.
Defined.

(** With credentials allowed the policy never puts the wildcard in place of
    the origin: the Access-Control-Allow-Origin header is either left as it
    was or set to the request origin as received.  So it reads ["*"] only
    when the response already held ["*"] or the request's own Origin is the
    literal ["*"], which is echoed like any other origin. *)
Theorem credentials_origin_echoed (c : Cors) (w : ResponseWriter)
    (r : Request) :
  allowCredentials c = true →
  (RespHeader (HandlerFunc c w r) !! "Access-Control-Allow-Origin"
     = RespHeader w !! "Access-Control-Allow-Origin"
   ∨ RespHeader (HandlerFunc c w r) !! "Access-Control-Allow-Origin"
     = Some [requestOrigin r])
  ∧ (RespHeader (HandlerFunc c w r) !! "Access-Control-Allow-Origin"
       = Some ["*"] →
     RespHeader w !! "Access-Control-Allow-Origin" = Some ["*"]
     ∨ requestOrigin r = "*").
Proof.
  intros Hcred.
  assert (RespHeader (HandlerFunc c w r) !! "Access-Control-Allow-Origin"
            = RespHeader w !! "Access-Control-Allow-Origin"
          ∨ RespHeader (HandlerFunc c w r) !! "Access-Control-Allow-Origin"
            = Some [requestOrigin r]) as Hcases.
  { unfold HandlerFunc, handlePreflight, handleActualRequest, requestOrigin.
    rewrite Hcred, andb_false_r.
    destruct_ifs; header_lookup; first [by left | by right]. }
  split; [done |]. intros Hstar.
  destruct Hcases as [Hold | Hecho]; [left; congruence | right].
  rewrite Hecho in Hstar. by injection Hstar.
Qed.

(** [AllowAll] allows all origins with credentials. *)
Lemma credentials_origin_echoed_witness :
  RespHeader
    (HandlerFunc AllowAll NewRecorder
       (NewRequest "GET" [("Origin", "http://foobar.com")]))
    !! "Access-Control-Allow-Origin" = None
  ∨ RespHeader
      (HandlerFunc AllowAll NewRecorder
         (NewRequest "GET" [("Origin", "http://foobar.com")]))
      !! "Access-Control-Allow-Origin" = Some ["http://foobar.com"].
Proof.
  refine (proj1 (credentials_origin_echoed AllowAll NewRecorder
                   (NewRequest "GET" [("Origin", "http://foobar.com")]) _)).
  reflexivity.
Defined.

(** A request without an Origin header (or with an empty one) never gets an
    Access-Control header: whatever the policy and the path, only [Vary] can
    change. *)
Theorem no_origin_no_cors_headers (c : Cors) (w : ResponseWriter)
    (r : Request) :
  requestOrigin r = "" →
  ∀ k, k ≠ "Vary" → RespHeader (HandlerFunc c w r) !! k = RespHeader w !! k.
Proof.
  intros Ho k Hk. unfold HandlerFunc.
  destruct (isPreflight r), (decide (Method r = MethodOptions)) as [Hm | Hm].
  - rewrite (handlePreflight_abort c w r Hm) by (by left).
    simpl. by apply lookup_addPreflightVary_ne.
  - by rewrite handlePreflight_not_options.
  - by rewrite handleActualRequest_options.
  - rewrite (handleActualRequest_abort c w r Hm) by (by left).
    simpl. by header_other.
Qed.

(** The NoConfig case of the test table. *)
Lemma no_origin_no_cors_headers_witness :
  RespHeader (HandlerFunc Default NewRecorder (NewRequest "GET" []))
    !! "Access-Control-Allow-Origin"
  = RespHeader NewRecorder !! "Access-Control-Allow-Origin".
Proof.
  apply (no_origin_no_cors_headers Default NewRecorder (NewRequest "GET" []));
    [reflexivity | discriminate].
Defined.

(** ** The policy compiler *)

(** The fields of a compiled policy, one by one. *)
Lemma New_origin_fields options :
  (allowedOriginsAll (New options), allowedOrigins (New options),
   allowedWOrigins (New options))
  = if (length (AllowedOrigins options) =? 0)%nat
    then (if AllowOriginFunc options is None then true else false, [], [])
    else New_origins (AllowedOrigins options) [] [].
Proof.
  unfold New.
  destruct (if (length (AllowedOrigins options) =? 0)%nat then _ else _)
    as [[all exact] wild].
  by destruct (if (length (AllowedHeaders options) =? 0)%nat then _ else _)
    as [hall hdrs].
Qed.

Lemma New_header_fields options :
  (allowedHeadersAll (New options), allowedHeaders (New options))
  = if (length (AllowedHeaders options) =? 0)%nat
    then (false, ["Origin"; "Accept"; "Content-Type"; "X-Requested-With"])
    else if New_headers_all (AllowedHeaders options) then (true, [])
    else (false,
          convert (AllowedHeaders options ++ ["Origin"]) CanonicalHeaderKey).
Proof.
  unfold New.
  destruct (if (length (AllowedOrigins options) =? 0)%nat then _ else _)
    as [[all exact] wild].
  by destruct (if (length (AllowedHeaders options) =? 0)%nat then _ else _)
    as [hall hdrs].
Qed.

Lemma New_method_field options :
  allowedMethods (New options)
  = if (length (AllowedMethods options) =? 0)%nat then ["GET"; "POST"; "HEAD"]
    else convert (AllowedMethods options) ToUpper.
Proof.
  unfold New.
  destruct (if (length (AllowedOrigins options) =? 0)%nat then _ else _)
    as [[all exact] wild].
  by destruct (if (length (AllowedHeaders options) =? 0)%nat then _ else _)
    as [hall hdrs].
Qed.

Lemma New_other_fields options :
  exposedHeaders (New options)
  = convert (ExposedHeaders options) CanonicalHeaderKey
  ∧ allowCredentials (New options) = AllowCredentials options
  ∧ maxAge (New options) = MaxAge options
  ∧ optionPassthrough (New options) = OptionsPassthrough options.
Proof.
  unfold New.
  destruct (if (length (AllowedOrigins options) =? 0)%nat then _ else _)
    as [[all exact] wild].
  by destruct (if (length (AllowedHeaders options) =? 0)%nat then _ else _)
    as [hall hdrs].
Qed.

Lemma length_eqb_0 {A} (l : list A) :
  (length l =? 0)%nat = bool_decide (l = []).
Proof. by destruct l. Qed.

(** Bytes *)
Lemma lowerByte_star c : lowerByte c = "*"%char ↔ c = "*"%char.
Proof.
  split; [| by intros ->].
  destruct c as [[] [] [] [] [] [] [] []]; vm_compute; congruence.
Qed.

Lemma lowerByte_idemp c : lowerByte (lowerByte c) = lowerByte c.
Proof. destruct c as [[] [] [] [] [] [] [] []]; reflexivity. Qed.

Lemma upperByte_idemp c : upperByte (upperByte c) = upperByte c.
Proof. destruct c as [[] [] [] [] [] [] [] []]; reflexivity. Qed.

Lemma validHeaderFieldByte_headerCaseByte upper c :
  validHeaderFieldByte (headerCaseByte upper c) = validHeaderFieldByte c.
Proof. destruct upper, c as [[] [] [] [] [] [] [] []]; reflexivity. Qed.

Lemma ToLower_star s : ToLower s = "*" ↔ s = "*".
Proof.
  split; [| by intros ->].
  destruct s as [|c [|d s]]; try done.
  unfold ToLower. simpl. intros [= Hc].
  by apply (proj1 (lowerByte_star c)) in Hc as ->.
Qed.

Lemma ToLower_idemp s : ToLower (ToLower s) = ToLower s.
Proof.
  unfold ToLower. induction s as [|c s IH]; simpl; [done |].
  by rewrite lowerByte_idemp, IH.
Qed.

Lemma ToUpper_idemp s : ToUpper (ToUpper s) = ToUpper s.
Proof.
  unfold ToUpper. induction s as [|c s IH]; simpl; [done |].
  by rewrite upperByte_idemp, IH.
Qed.

Lemma Map_substring f n m s :
  Strings.Map f (substring n m s) = substring n m (Strings.Map f s).
Proof.
  revert n m. induction s as [|c s IH]; intros [|n] [|m]; simpl; try done.
  by rewrite IH.
Qed.

Lemma validHeaderField_headerCase upper s :
  validHeaderField (headerCase upper s) = validHeaderField s.
Proof.
  revert upper. induction s as [|c s IH]; intros upper; [done |].
  rewrite headerCase_cons. simpl.
  by rewrite validHeaderFieldByte_headerCaseByte, IH.
Qed.

(** Canonicalization is idempotent. *)
Lemma CanonicalHeaderKey_idemp s :
  CanonicalHeaderKey (CanonicalHeaderKey s) = CanonicalHeaderKey s.
Proof.
  unfold CanonicalHeaderKey. destruct (validHeaderField s) eqn:Hv.
  - by rewrite validHeaderField_headerCase, Hv, headerCase_idemp.
  - by rewrite Hv.
Qed.

(** The loop over the origins, when it meets a ["*"]. *)
Lemma New_origins_star origins exact wild :
  "*" ∈ origins → New_origins origins exact wild = (true, [], []).
Proof.
  revert exact wild. induction origins as [|o l IH]; intros exact wild Hin.
  { by apply elem_of_nil in Hin. }
  simpl. destruct (decide (ToLower o = "*")) as [|Hne]; [done |].
  apply elem_of_cons in Hin as [<- | Hin]; [done |].
  destruct (0 <=? IndexByte (ToLower o) "*"); by apply IH.
Qed.

(** The loop over the origins, when it meets none: the entries are
    lower-cased and sorted into exact origins and wildcard patterns, each in
    the order of the list. *)
Lemma New_origins_no_star origins exact wild :
  "*" ∉ origins →
  New_origins origins exact wild
  = (false,
     exact ++ filter (λ o, ¬ hasStar o) (ToLower <$> origins),
     wild ++ (wildcardOf <$> filter hasStar (ToLower <$> origins))).
Proof.
  revert exact wild. induction origins as [|o l IH]; intros exact wild Hnot.
  { simpl. by rewrite !app_nil_r. }
  apply not_elem_of_cons in Hnot as [Ho Hl]. simpl New_origins.
  rewrite decide_False by (by rewrite ToLower_star).
  rewrite fmap_cons, !filter_cons.
  destruct (decide (hasStar (ToLower o))) as [Hs | Hs];
    destruct (decide (¬ hasStar (ToLower o))) as [Hn | Hn]; try tauto;
    unfold hasStar in Hs.
  - rewrite (proj2 (Z.leb_le _ _) Hs).
    rewrite (IH exact _ Hl), fmap_cons. by rewrite <- (assoc_L (++)).
  - rewrite (proj2 (Z.leb_gt _ _)) by lia.
    rewrite (IH _ wild Hl). by rewrite <- (assoc_L (++)).
Qed.

Lemma IndexByte_ToLower_star s : IndexByte (ToLower s) "*" = IndexByte s "*".
Proof.
  unfold ToLower. induction s as [|c s IH]; simpl; [done |]. rewrite IH.
  destruct (Ascii.eqb_spec (lowerByte c) "*") as [Hc | Hc];
    destruct (Ascii.eqb_spec c "*") as [Hc' | Hc']; try done.
  - by apply (proj1 (lowerByte_star c)) in Hc.
  - by apply (proj2 (lowerByte_star c)) in Hc'.
Qed.

(** Without a predicate, admissibility is the allow-all flag, then the exact
    origins, then the patterns, all on the lower-cased origin. *)
Lemma isOriginAllowed_no_func c origin :
  allowOriginFunc c = None →
  isOriginAllowed c origin = true ↔
    allowedOriginsAll c = true
    ∨ ToLower origin ∈ allowedOrigins c
    ∨ ∃ w, w ∈ allowedWOrigins c ∧ wildcard_match w (ToLower origin) = true.
Proof.
  intros Hf. unfold isOriginAllowed. rewrite Hf.
  destruct (allowedOriginsAll c); [by split; [left |] |].
  rewrite existsb_eq_elem_of.
  destruct (decide (ToLower origin ∈ allowedOrigins c)) as [Hin | Hnin].
  { rewrite bool_decide_eq_true_2 by done. split; [by right; left | done]. }
  rewrite bool_decide_eq_false_2 by done.
  destruct (existsb _ (allowedWOrigins c)) eqn:Hex.
  - apply existsb_exists in Hex as (w & Hw & Hm). split; [| done].
    intros _. right. right. exists w. by rewrite list_elem_of_In.
  - split; [done |]. intros [? | [? | (w & Hw & Hm)]]; try done.
    assert (existsb (λ w, wildcard_match w (ToLower origin))
              (allowedWOrigins c) = true) as Hex'; [| congruence].
    apply existsb_exists. exists w. by rewrite <- list_elem_of_In.
Qed.

(** A ["*"] anywhere in [AllowedOrigins] wins over every other entry: the
    policy allows all origins and keeps no exact origin and no pattern, and,
    when no predicate is configured, every origin is admitted. *)
Theorem New_star_allows_all (options : Options) :
  "*" ∈ AllowedOrigins options →
  allowedOriginsAll (New options) = true
  ∧ allowedOrigins (New options) = []
  ∧ allowedWOrigins (New options) = []
  ∧ (AllowOriginFunc options = None →
     ∀ origin, isOriginAllowed (New options) origin = true).
Proof.
  intros Hstar. pose proof (New_origin_fields options) as Hf.
  destruct (AllowedOrigins options) as [|o l] eqn:Hl.
  { by apply elem_of_nil in Hstar. }
  simpl length in Hf. change (S (length l) =? 0)%nat with false in Hf.
  cbv iota in Hf. rewrite (New_origins_star (o :: l) [] [] Hstar) in Hf.
  injection Hf as Hall Hexact Hwild. do 3 (split; [done |]).
  intros Hnone origin. apply isOriginAllowed_no_func.
  - by rewrite New_allowOriginFunc.
  - by left.
Qed.

Lemma New_star_allows_all_witness :
  allowedOriginsAll
    (New (Options_origins ["http://foobar.com"; "http://*.bar.com"; "*"]))
  = true
  ∧ allowedOrigins
      (New (Options_origins ["http://foobar.com"; "http://*.bar.com"; "*"]))
    = []
  ∧ allowedWOrigins
      (New (Options_origins ["http://foobar.com"; "http://*.bar.com"; "*"]))
    = []
  ∧ (AllowOriginFunc
       (Options_origins ["http://foobar.com"; "http://*.bar.com"; "*"]) = None →
     ∀ origin,
       isOriginAllowed
         (New (Options_origins ["http://foobar.com"; "http://*.bar.com"; "*"]))
         origin = true).
Proof.
  apply (New_star_allows_all
           (Options_origins ["http://foobar.com"; "http://*.bar.com"; "*"])).
  by_decide.
Defined.

(** Without a ["*"] entry a non-empty [AllowedOrigins] is lower-cased and
    sorted, in order, into the exact origins (the entries without ['*']) and
    the wildcard patterns (the others); each pattern is its entry cut at the
    first ['*']: prefix, ['*'], suffix give back the lower-cased entry and
    the prefix holds no ['*'] (a later ['*'] stays in the suffix as an
    ordinary byte). *)
Theorem New_origins_partition (options : Options) :
  AllowedOrigins options ≠ [] →
  "*" ∉ AllowedOrigins options →
  allowedOriginsAll (New options) = false
  ∧ allowedOrigins (New options)
    = filter (λ o, ¬ hasStar o) (ToLower <$> AllowedOrigins options)
  ∧ allowedWOrigins (New options)
    = wildcardOf <$> filter hasStar (ToLower <$> AllowedOrigins options)
  ∧ ∀ w, w ∈ allowedWOrigins (New options) →
      ∃ o, o ∈ AllowedOrigins options
           ∧ ToLower o = w_prefix w +:+ String "*" (w_suffix w)
           ∧ IndexByte (w_prefix w) "*" = -1.
Proof.
  intros Hne Hstar. pose proof (New_origin_fields options) as Hf.
  rewrite length_eqb_0, bool_decide_eq_false_2 in Hf by done.
  rewrite (New_origins_no_star _ [] [] Hstar) in Hf.
  injection Hf as Hall Hexact Hwild. do 3 (split; [done |]).
  intros w. rewrite Hwild. simpl.
  intros (lo & -> & Hlo)%list_elem_of_fmap.
  apply list_elem_of_filter in Hlo as [Hs Hlo].
  apply list_elem_of_fmap in Hlo as (o & -> & Ho).
  exists o. split; [done |]. by apply IndexByte_split.
Qed.

Lemma New_origins_partition_witness :
  allowedOrigins
    (New (Options_origins ["HTTP://FooBar.com"; "http://*.Bar.*.com"]))
  = ["http://foobar.com"]
  ∧ allowedWOrigins
      (New (Options_origins ["HTTP://FooBar.com"; "http://*.Bar.*.com"]))
    = [mkWildcard "http://" ".bar.*.com"].
Proof.
  destruct (New_origins_partition
              (Options_origins ["HTTP://FooBar.com"; "http://*.Bar.*.com"]))
    as (_ & -> & -> & _).
  - discriminate.
  - by_decide.
  - vm_compute. split; reflexivity.
Defined.

Lemma isOriginAllowed_compiled_aux options origin :
  AllowOriginFunc options = None →
  AllowedOrigins options ≠ [] →
  "*" ∉ AllowedOrigins options →
  isOriginAllowed (New options) origin = true ↔
    ∃ o, o ∈ AllowedOrigins options
         ∧ if decide (hasStar o)
           then wildcard_match (wildcardOf (ToLower o)) (ToLower origin) = true
           else ToLower o = ToLower origin.
Proof.
  intros Hnone Hne Hstar. pose proof (New_origin_fields options) as Hf.
  rewrite length_eqb_0, bool_decide_eq_false_2 in Hf by done.
  rewrite (New_origins_no_star _ [] [] Hstar) in Hf.
  injection Hf as Hall Hexact Hwild. simpl in Hexact, Hwild.
  rewrite isOriginAllowed_no_func by (by rewrite New_allowOriginFunc).
  rewrite Hall, Hexact, Hwild. split.
  - intros [? | [Hin | (w & Hw & Hm)]]; [done | |].
    + apply list_elem_of_filter in Hin as [Hs Hin].
      apply list_elem_of_fmap in Hin as (o & Heq & Ho).
      exists o. split; [done |]. rewrite decide_False; [done |].
      unfold hasStar in *. by rewrite <- IndexByte_ToLower_star, <- Heq.
    + apply list_elem_of_fmap in Hw as (lo & -> & Hlo).
      apply list_elem_of_filter in Hlo as [Hs Hlo].
      apply list_elem_of_fmap in Hlo as (o & -> & Ho).
      exists o. split; [done |]. rewrite decide_True; [done |].
      unfold hasStar in *. by rewrite <- IndexByte_ToLower_star.
  - intros (o & Ho & Hcase). right.
    destruct (decide (hasStar o)) as [Hs | Hs].
    + right. exists (wildcardOf (ToLower o)). split; [| done].
      apply list_elem_of_fmap. exists (ToLower o). split; [done |].
      apply list_elem_of_filter. split.
      * unfold hasStar in *. by rewrite IndexByte_ToLower_star.
      * apply list_elem_of_fmap. by exists o.
    + left. rewrite <- Hcase. apply list_elem_of_filter. split.
      * unfold hasStar in *. by rewrite IndexByte_ToLower_star.
      * apply list_elem_of_fmap. by exists o.
Qed.

(** Origin matching on a compiled policy without predicate and without
    ["*"] entry: an origin is admitted exactly when some configured entry
    admits it, an entry without ['*'] by being equal to it up to case, an
    entry with a ['*'] by its pattern matching the lower-cased origin. *)
Theorem isOriginAllowed_compiled (options : Options) (origin : string) :
  AllowOriginFunc options = None →
  AllowedOrigins options ≠ [] →
  "*" ∉ AllowedOrigins options →
  isOriginAllowed (New options) origin = true ↔
    ∃ o, o ∈ AllowedOrigins options
         ∧ if decide (hasStar o)
           then wildcard_match (wildcardOf (ToLower o)) (ToLower origin) = true
           else ToLower o = ToLower origin.
Proof. apply isOriginAllowed_compiled_aux. Qed.

Lemma isOriginAllowed_compiled_witness :
  isOriginAllowed (New (Options_origins ["http://*.bar.com"]))
    "HTTP://foo.BAR.com" = true.
Proof.
  apply (isOriginAllowed_compiled (Options_origins ["http://*.bar.com"])
           "HTTP://foo.BAR.com");
    [reflexivity | discriminate | by_decide |].
  exists "http://*.bar.com". split; [by_decide |].
  vm_compute. reflexivity.
Defined.

(** Exact origins are matched without regard to case, on both sides: when no
    configured entry holds a ['*'], an origin is admitted exactly when its
    lower-cased form is the lower-cased form of a configured entry. *)
Theorem exact_origins_case_insensitive (options : Options) (origin : string) :
  AllowOriginFunc options = None →
  AllowedOrigins options ≠ [] →
  (∀ o, o ∈ AllowedOrigins options → ¬ hasStar o) →
  isOriginAllowed (New options) origin
  = bool_decide (ToLower origin ∈ ToLower <$> AllowedOrigins options).
Proof.
  intros Hnone Hne Hns. apply eq_true_iff_eq.
  rewrite bool_decide_eq_true, list_elem_of_fmap.
  rewrite isOriginAllowed_compiled_aux; [| done | done |].
  - split.
    + intros (o & Ho & Hcase). exists o.
      by rewrite decide_False in Hcase by (by apply Hns).
    + intros (o & Heq & Ho). exists o. split; [done |].
      by rewrite decide_False by (by apply Hns).
  - intros Hstar. by apply (Hns "*" Hstar).
Qed.

Lemma exact_origins_case_insensitive_witness :
  isOriginAllowed (New (Options_origins ["http://FooBar.com"]))
    "HTTP://foobar.COM" = true.
Proof.
  rewrite (exact_origins_case_insensitive
             (Options_origins ["http://FooBar.com"]) "HTTP://foobar.COM").
  - vm_compute. reflexivity.
  - reflexivity.
  - discriminate.
  - intros o ->%list_elem_of_singleton. vm_compute. by intros H.
Defined.

Lemma elem_of_convert (l : list string) (f : string → string) x :
  x ∈ convert l f ↔ ∃ y, x = f y ∧ y ∈ l.
Proof. unfold convert. apply list_elem_of_fmap. Qed.

Lemma New_headers_all_iff (headers : list string) :
  New_headers_all headers = true ↔ "*" ∈ headers.
Proof.
  unfold New_headers_all. rewrite existsb_exists. split.
  - intros (h & Hin & Heq). apply bool_decide_eq_true in Heq. subst h.
    by apply list_elem_of_In.
  - intros Hin. exists "*". split; [by apply list_elem_of_In |].
    by apply bool_decide_eq_true.
Qed.

(** Every compiled policy admits the Origin header among the requested
    headers, in any spelling that canonicalizes to ["Origin"]: it is in the
    default list, it is appended to a configured list, and a ["*"] entry
    allows every header. *)
Theorem Origin_header_always_allowed (options : Options) (h : string) :
  CanonicalHeaderKey h = "Origin" →
  areHeadersAllowed (New options) [h] = true.
Proof.
  intros Hh. apply areHeadersAllowed_true.
  pose proof (New_header_fields options) as Hf.
  destruct (length (AllowedHeaders options) =? 0)%nat.
  - injection Hf as _ ->. right. intros x ->%list_elem_of_singleton.
    rewrite Hh. apply list_elem_of_here.
  - destruct (New_headers_all (AllowedHeaders options)).
    + injection Hf as -> _. by left.
    + injection Hf as _ ->. right. intros x ->%list_elem_of_singleton.
      rewrite Hh. apply elem_of_convert. exists "Origin". split; [done |].
      apply elem_of_app. right. apply list_elem_of_here.
Qed.

(** The OriginHeader case of the test table asks for ["origin"]. *)
Lemma Origin_header_always_allowed_witness :
  areHeadersAllowed
    (New {| AllowedOrigins := []; AllowOriginFunc := None; AllowedMethods := [];
            AllowedHeaders := ["X-Header-1"]; ExposedHeaders := []; MaxAge := 0;
            AllowCredentials := false; OptionsPassthrough := false;
            Debug := false |})
    ["origin"] = true.
Proof. apply Origin_header_always_allowed. reflexivity. Defined.

(** Configured headers: without a ["*"] entry a requested list is admitted
    exactly when each requested header is, up to canonicalization, a
    configured header or Origin; with a ["*"] entry every list is admitted. *)
Theorem areHeadersAllowed_compiled (options : Options)
    (reqHeaders : list string) :
  AllowedHeaders options ≠ [] →
  areHeadersAllowed (New options) reqHeaders = true ↔
    "*" ∈ AllowedHeaders options
    ∨ ∀ h, h ∈ reqHeaders →
        CanonicalHeaderKey h = "Origin"
        ∨ ∃ a, a ∈ AllowedHeaders options
               ∧ CanonicalHeaderKey h = CanonicalHeaderKey a.
Proof.
  intros Hne. rewrite areHeadersAllowed_true.
  pose proof (New_header_fields options) as Hf.
  rewrite length_eqb_0, bool_decide_eq_false_2 in Hf by done.
  destruct (New_headers_all (AllowedHeaders options)) eqn:Hall.
  - injection Hf as -> _. apply New_headers_all_iff in Hall.
    split; by left.
  - injection Hf as -> ->.
    assert ("*" ∉ AllowedHeaders options) as Hns.
    { intros Hin%New_headers_all_iff. congruence. }
    split; (intros [? | Hreq]; [done | right]); intros h Hh;
      specialize (Hreq h Hh).
    + apply elem_of_convert in Hreq as (a & Heq & Ha).
      apply elem_of_app in Ha as [Ha | ->%list_elem_of_singleton].
      * right. by exists a.
      * by left.
    + apply elem_of_convert. destruct Hreq as [Ho | (a & Ha & Heq)].
      * exists "Origin". split; [done |]. apply elem_of_app. right.
        apply list_elem_of_here.
      * exists a. split; [done |]. apply elem_of_app. by left.
Qed.

(** The AllowedHeaders case of the test table. *)
Lemma areHeadersAllowed_compiled_witness :
  areHeadersAllowed
    (New {| AllowedOrigins := ["http://foobar.com"]; AllowOriginFunc := None;
            AllowedMethods := []; AllowedHeaders := ["X-Header-1"; "x-header-2"];
            ExposedHeaders := []; MaxAge := 0; AllowCredentials := false;
            OptionsPassthrough := false; Debug := false |})
    ["X-Header-2"; "X-HEADER-1"] = true.
Proof.
  apply areHeadersAllowed_compiled; [discriminate |]. right.
  intros h [-> | [-> | []%elem_of_nil]%elem_of_cons]%elem_of_cons; right.
  - exists "x-header-2". split; [by_decide | reflexivity].
  - exists "X-Header-1". split; [by_decide | reflexivity].
Defined.

(** Configured methods are matched without regard to case, on both sides: a
    method is admitted by the policy compiled from a non-empty
    [AllowedMethods] exactly when its upper-cased form is OPTIONS or the
    upper-cased form of a configured method. *)
Theorem isMethodAllowed_compiled (options : Options) (method : string) :
  AllowedMethods options ≠ [] →
  isMethodAllowed (New options) method
  = bool_decide (ToUpper method
                   ∈ "OPTIONS" :: (ToUpper <$> AllowedMethods options)).
Proof.
  intros Hne. rewrite isMethodAllowed_eq, New_method_field.
  rewrite length_eqb_0, bool_decide_eq_false_2 by done.
  unfold convert. by destruct (AllowedMethods options).
Qed.

(** The AllowedMethod case of the test table, asked in lower case. *)
Lemma isMethodAllowed_compiled_witness :
  isMethodAllowed
    (New {| AllowedOrigins := []; AllowOriginFunc := None;
            AllowedMethods := ["put"; "Delete"]; AllowedHeaders := [];
            ExposedHeaders := []; MaxAge := 0; AllowCredentials := false;
            OptionsPassthrough := false; Debug := false |})
    "delete" = true.
Proof.
  rewrite isMethodAllowed_compiled; [reflexivity | discriminate].
Defined.

(** What every compiled policy satisfies: the methods are not empty and
    upper-case; the exact origins are lower-case and hold no ['*']; the
    patterns are lower-case with no ['*'] in the prefix; the allowed and the
    exposed headers are canonical; the allow-all flags come with empty
    lists; the predicate, the credentials flag, the max age and the
    passthrough flag are the configured ones. *)
Theorem New_invariants (options : Options) :
  allowedMethods (New options) ≠ []
  ∧ (∀ m, m ∈ allowedMethods (New options) → ToUpper m = m)
  ∧ (∀ o, o ∈ allowedOrigins (New options) → ToLower o = o ∧ ¬ hasStar o)
  ∧ (∀ w, w ∈ allowedWOrigins (New options) →
       ToLower (w_prefix w) = w_prefix w ∧ ToLower (w_suffix w) = w_suffix w
       ∧ ¬ hasStar (w_prefix w))
  ∧ (∀ h, h ∈ allowedHeaders (New options) → CanonicalHeaderKey h = h)
  ∧ (∀ h, h ∈ exposedHeaders (New options) → CanonicalHeaderKey h = h)
  ∧ (allowedOriginsAll (New options) = true →
     allowedOrigins (New options) = [] ∧ allowedWOrigins (New options) = [])
  ∧ (allowedHeadersAll (New options) = true → allowedHeaders (New options) = [])
  ∧ allowOriginFunc (New options) = AllowOriginFunc options
  ∧ allowCredentials (New options) = AllowCredentials options
  ∧ maxAge (New options) = MaxAge options
  ∧ optionPassthrough (New options) = OptionsPassthrough options.
Proof.
  destruct (New_other_fields options) as (Hexp & Hcred & Hage & Hpass).
  split; [apply New_methods_nonempty |]. split.
  { intros m. rewrite New_method_field.
    destruct (length (AllowedMethods options) =? 0)%nat.
    - intros Hm. repeat (apply elem_of_cons in Hm as [-> | Hm]; [done |]).
      by apply elem_of_nil in Hm.
    - intros (y & -> & _)%elem_of_convert. apply ToUpper_idemp. }
  assert (allowedOriginsAll (New options) = true ∧ allowedOrigins (New options) = []
            ∧ allowedWOrigins (New options) = []
          ∨ allowedOriginsAll (New options) = false
            ∧ allowedOrigins (New options)
              = filter (λ o, ¬ hasStar o) (ToLower <$> AllowedOrigins options)
            ∧ allowedWOrigins (New options)
              = wildcardOf <$> filter hasStar (ToLower <$> AllowedOrigins options))
    as Horigins.
  { pose proof (New_origin_fields options) as Hf.
    destruct (AllowedOrigins options) as [|o l] eqn:Hl.
    - simpl in Hf. injection Hf as Hall -> ->.
      destruct (allowedOriginsAll (New options)); [by left | by right].
    - simpl length in Hf. change (S (length l) =? 0)%nat with false in Hf.
      cbv iota in Hf. destruct (decide ("*" ∈ o :: l)) as [Hs | Hs].
      + rewrite (New_origins_star _ [] [] Hs) in Hf.
        injection Hf as -> -> ->. by left.
      + rewrite (New_origins_no_star _ [] [] Hs) in Hf.
        injection Hf as -> -> ->. by right. }
  split.
  { intros o Ho. destruct Horigins as [(_ & Hex & _) | (_ & Hex & _)];
      rewrite Hex in Ho; [by apply elem_of_nil in Ho |].
    apply list_elem_of_filter in Ho as [Hs Ho].
    apply list_elem_of_fmap in Ho as (y & -> & _).
    split; [apply ToLower_idemp | done]. }
  split.
  { intros w Hw. destruct Horigins as [(_ & _ & Hwi) | (_ & _ & Hwi)];
      rewrite Hwi in Hw; [by apply elem_of_nil in Hw |].
    apply list_elem_of_fmap in Hw as (lo & -> & Hlo).
    apply list_elem_of_filter in Hlo as [Hs Hlo].
    apply list_elem_of_fmap in Hlo as (y & -> & _).
    unfold wildcardOf, slice_to, slice_from, ToLower. simpl.
    rewrite !Map_substring. fold (ToLower y). fold (ToLower (ToLower y)).
    rewrite ToLower_idemp. split; [done |]. split; [done |].
    destruct (IndexByte_split (ToLower y) "*" Hs) as [_ Hnone].
    unfold hasStar, slice_to in *. lia. }
  split.
  { intros h. pose proof (New_header_fields options) as Hf.
    destruct (length (AllowedHeaders options) =? 0)%nat.
    - injection Hf as _ ->. intros Hh.
      repeat (apply elem_of_cons in Hh as [-> | Hh]; [done |]).
      by apply elem_of_nil in Hh.
    - destruct (New_headers_all (AllowedHeaders options)).
      + injection Hf as _ ->. by intros ?%elem_of_nil.
      + injection Hf as _ ->. intros (y & -> & _)%elem_of_convert.
        apply CanonicalHeaderKey_idemp. }
  split.
  { intros h. rewrite Hexp. intros (y & -> & _)%elem_of_convert.
    apply CanonicalHeaderKey_idemp. }
  split.
  { intros Hall. destruct Horigins as [(_ & ? & ?) | (? & _)]; [done |].
    congruence. }
  split.
  { pose proof (New_header_fields options) as Hf.
    destruct (length (AllowedHeaders options) =? 0)%nat.
    - injection Hf as -> _. done.
    - destruct (New_headers_all (AllowedHeaders options)).
      + by injection Hf as _ ->.
      + injection Hf as -> _. done. }
  split; [apply New_allowOriginFunc | done].
Qed.

Lemma New_invariants_witness :
  ToUpper "DELETE" = "DELETE".
Proof.
  apply (proj1 (proj2
           (New_invariants
              {| AllowedOrigins := []; AllowOriginFunc := None;
                 AllowedMethods := ["put"; "Delete"]; AllowedHeaders := [];
                 ExposedHeaders := []; MaxAge := 0; AllowCredentials := false;
                 OptionsPassthrough := false; Debug := false |}))).
  by_decide.
Defined.

(** ** Adapters and presets *)

(** [Handler] and [ServeHTTP] are the same adapter; on a request that is not
    a preflight, and on a preflight when passthrough is on, the downstream
    handler runs on the response the engine has already written its headers
    to, and the adapter writes no status itself. *)
Theorem downstream_after_headers (c : Cors) (h : Http.Handler)
    (w : ResponseWriter) (r : Request) :
  Handler c h w r = ServeHTTP c w r h
  ∧ (isPreflight r = false →
     Handler c h w r = h (handleActualRequest c w r) r)
  ∧ (isPreflight r = true → optionPassthrough c = true →
     Handler c h w r = h (handlePreflight c w r) r).
Proof.
  unfold Handler, ServeHTTP. split; [done |].
  split; [by intros -> | by intros -> ->].
Qed.

(** The OptionPassthrough case of the test table: the downstream handler
    writes its body on the preflight response. *)
Lemma downstream_after_headers_witness :
  Body
    (Handler
       (New {| AllowedOrigins := []; AllowOriginFunc := None;
               AllowedMethods := []; AllowedHeaders := []; ExposedHeaders := [];
               MaxAge := 0; AllowCredentials := false;
               OptionsPassthrough := true; Debug := false |})
       testHandler NewRecorder
       (NewRequest "OPTIONS" [("Origin", "http://foobar.com");
                              ("Access-Control-Request-Method", "GET")]))
  = "hello".
Proof.
  set (c := New _). set (r := NewRequest _ _).
  rewrite (proj2 (proj2 (downstream_after_headers c testHandler NewRecorder r)));
    reflexivity.
Defined.

(** The zero configuration: a request with an origin whose method is not
    the literal OPTIONS is answered with the wildcard origin when its
    upper-cased method is GET, POST, HEAD or OPTIONS, and with the [Vary]
    entry only otherwise; credentials and exposed headers are never
    written. *)
Theorem Default_simple_requests (w : ResponseWriter) (r : Request) :
  Method r ≠ MethodOptions →
  requestOrigin r ≠ "" →
  RespHeader (HandlerFunc Default w r) !! "Access-Control-Allow-Origin"
    = (if bool_decide (ToUpper (Method r) ∈ ["OPTIONS"; "GET"; "POST"; "HEAD"])
       then Some ["*"]
       else RespHeader w !! "Access-Control-Allow-Origin")
  ∧ RespHeader (HandlerFunc Default w r) !! "Access-Control-Allow-Credentials"
    = RespHeader w !! "Access-Control-Allow-Credentials"
  ∧ RespHeader (HandlerFunc Default w r) !! "Access-Control-Expose-Headers"
    = RespHeader w !! "Access-Control-Expose-Headers".
Proof.
  unfold requestOrigin. intros Hm Ho.
  assert (isPreflight r = false) as Hpre.
  { unfold isPreflight. by rewrite bool_decide_eq_false_2. }
  unfold HandlerFunc. rewrite Hpre. unfold handleActualRequest.
  rewrite decide_False by done. rewrite decide_False by done.
  rewrite (isMethodAllowed_eq Default (Method r)).
  change (isOriginAllowed Default (Get (ReqHeader r) "Origin")) with true.
  change (allowedMethods Default) with ["GET"; "POST"; "HEAD"].
  change (allowedOriginsAll Default) with true.
  change (allowCredentials Default) with false.
  change (exposedHeaders Default) with (@nil string).
  simpl negb. cbv iota. simpl length. cbv iota.
  destruct (bool_decide _); simpl RespHeader; repeat apply conj;
    header_lookup; reflexivity.
Qed.

(** The MatchAllOrigin case of the test table, with the default options. *)
Lemma Default_simple_requests_witness :
  RespHeader
    (HandlerFunc Default NewRecorder
       (NewRequest "GET" [("Origin", "http://foobar.com")]))
    !! "Access-Control-Allow-Origin" = Some ["*"].
Proof.
  refine (proj1 (Default_simple_requests NewRecorder
                   (NewRequest "GET" [("Origin", "http://foobar.com")]) _ _)).
  - vm_compute. discriminate.
  - vm_compute. discriminate.
Defined.

(** The headers [AllowAll] answers a preflight with, one by one. *)
Lemma AllowAll_preflight_lookups (w : ResponseWriter) (r : Request) :
  Method r = MethodOptions →
  requestOrigin r ≠ "" →
  ToUpper (requestedMethod r)
    ∈ ["OPTIONS"; "HEAD"; "GET"; "POST"; "PUT"; "PATCH"; "DELETE"] →
  RespHeader (HandlerFunc AllowAll w r) !! "Access-Control-Allow-Origin"
    = Some [requestOrigin r]
  ∧ RespHeader (HandlerFunc AllowAll w r) !! "Access-Control-Allow-Methods"
    = Some [ToUpper (requestedMethod r)]
  ∧ RespHeader (HandlerFunc AllowAll w r) !! "Access-Control-Allow-Headers"
    = (if decide (requestedHeaders r = [])
       then RespHeader w !! "Access-Control-Allow-Headers"
       else Some [Join (requestedHeaders r) ", "])
  ∧ RespHeader (HandlerFunc AllowAll w r) !! "Access-Control-Allow-Credentials"
    = Some ["true"]
  ∧ RespHeader (HandlerFunc AllowAll w r) !! "Access-Control-Max-Age"
    = RespHeader w !! "Access-Control-Max-Age".
Proof.
  unfold requestOrigin, requestedMethod, requestedHeaders. intros Hm Ho Hmeth.
  assert (isPreflight r = true) as Hpre.
  { apply isPreflight_true. split; [done |]. unfold requestedMethod.
    intros He. rewrite He in Hmeth. revert Hmeth. by_decide. }
  unfold HandlerFunc. rewrite Hpre. unfold handlePreflight.
  rewrite decide_False by (by intros []). rewrite decide_False by done.
  rewrite (isMethodAllowed_eq AllowAll).
  change (isOriginAllowed AllowAll (Get (ReqHeader r) "Origin")) with true.
  change (allowedMethods AllowAll)
    with ["HEAD"; "GET"; "POST"; "PUT"; "PATCH"; "DELETE"].
  rewrite bool_decide_eq_true_2 by done.
  change (areHeadersAllowed AllowAll ?l) with true.
  change (allowedOriginsAll AllowAll) with true.
  change (allowCredentials AllowAll) with true.
  change (maxAge AllowAll) with 0.
  simpl negb. simpl andb. cbv iota.
  fold (addPreflightVary (RespHeader w)).
  set (reqHeaders :=
         parseHeaderList (Get (ReqHeader r) "Access-Control-Request-Headers")).
  assert ((0 <? length reqHeaders)%nat
          = if decide (reqHeaders = []) then false else true) as ->.
  { by destruct reqHeaders. }
  change (0 <? 0) with false. cbv iota.
  destruct (decide (reqHeaders = [])); simpl RespHeader; repeat apply conj;
    header_lookup; rewrite ?lookup_addPreflightVary_ne by discriminate;
    reflexivity.
Qed.

(** [AllowAll] on a preflight: any origin, any requested headers and the
    methods HEAD, GET, POST, PUT, PATCH, DELETE and OPTIONS are accepted; the
    answer echoes the origin as received (the policy's own wildcard is not
    used, as credentials are on, so the header reads ["*"] exactly when the
    request's Origin is the literal ["*"]), names the requested method and
    headers and sets the credentials flag; no max age is written. *)
Theorem AllowAll_preflight (w : ResponseWriter) (r : Request) :
  Method r = MethodOptions →
  requestOrigin r ≠ "" →
  ToUpper (requestedMethod r)
    ∈ ["OPTIONS"; "HEAD"; "GET"; "POST"; "PUT"; "PATCH"; "DELETE"] →
  RespHeader (HandlerFunc AllowAll w r) !! "Access-Control-Allow-Origin"
    = Some [requestOrigin r]
  ∧ (RespHeader (HandlerFunc AllowAll w r) !! "Access-Control-Allow-Origin"
       = Some ["*"] ↔ requestOrigin r = "*")
  ∧ RespHeader (HandlerFunc AllowAll w r) !! "Access-Control-Allow-Methods"
    = Some [ToUpper (requestedMethod r)]
  ∧ RespHeader (HandlerFunc AllowAll w r) !! "Access-Control-Allow-Headers"
    = (if decide (requestedHeaders r = [])
       then RespHeader w !! "Access-Control-Allow-Headers"
       else Some [Join (requestedHeaders r) ", "])
  ∧ RespHeader (HandlerFunc AllowAll w r) !! "Access-Control-Allow-Credentials"
    = Some ["true"]
  ∧ RespHeader (HandlerFunc AllowAll w r) !! "Access-Control-Max-Age"
    = RespHeader w !! "Access-Control-Max-Age".
Proof.
  intros Hm Ho Hmeth.
  destruct (AllowAll_preflight_lookups w r Hm Ho Hmeth) as (Horigin & Hrest).
  split; [done |]. split; [| done]. rewrite Horigin. split.
  - by intros [= ->].
  - by intros ->.
Qed.

Lemma AllowAll_preflight_witness :
  RespHeader
    (HandlerFunc AllowAll NewRecorder
       (NewRequest "OPTIONS" [("Origin", "http://foobar.com");
                              ("Access-Control-Request-Method", "patch");
                              ("Access-Control-Request-Headers", "x-any")]))
    !! "Access-Control-Allow-Headers" = Some ["X-Any"].
Proof.
  set (r := NewRequest _ _).
  refine (proj1 (proj2 (proj2 (proj2
            (AllowAll_preflight NewRecorder r _ _ _))))).
  - reflexivity.
  - vm_compute. discriminate.
  - by_decide.
Defined.
